(** * orbitize.read_input: the measurement normalizer

    A shallow embedding of [read_formatted_file] (src/orbitize/read_input.py)
    and the properties of its row classification and fan-out.

    The delimited-file reader ([astropy.io.ascii.read]) is an external
    collaborator: the embedding starts from the table it returns.

    [Table] is a masked table: every column is a masked column, each cell
    a value or masked ([None]).  [read_formatted_file] is the function on
    such a table, and its rows are the rows as the program hands them to
    [add_row]: a masked value copied from the input and the [None] the
    program writes are both [None].

    [ReadTable] is a table of the reader in general, whose columns are
    plain or masked; [read_formatted_file_from] is the function on it, with
    the [AttributeError] that reading [.mask] off a plain column raises.
    [store] is what the unmasked float output table keeps of a row handed
    to [add_row].

    Numbers are IEEE binary64 floats, as in the program. *)

From Stdlib Require Import PrimFloat.
From stdpp Require Import base option list gmap strings.

(** ** Data model *)

(** A cell of a masked float column: [None] is a masked entry. *)
Abbreviation cell := (option float).

(** [astropy.table.Table], masked: named masked columns, all of [len]
    entries. *)
Record Table := mkTable {
  len : nat;
  columns : gmap string (list cell)
}.

(** The invariant astropy keeps on every table: columns share one length. *)
Definition well_formed (t : Table) : Prop :=
  map_Forall (λ _ col, length col = len t) (columns t).

#[global] Instance well_formed_dec t : Decision (well_formed t).
Proof. unfold well_formed. apply _. Defined.

Definition table_of (n : nat) (cols : list (string * list cell)) : Table :=
  mkTable n (list_to_map cols).

Inductive quant_type := radec | seppa | rv.

#[global] Instance quant_type_eq_dec : EqDecision quant_type.
Proof. solve_decision. Defined.

(** One row of the output table
    [('epoch','quant1','quant1_err','quant2','quant2_err','quant_type')],
    as the list handed to [add_row]. *)
Record CanonicalRow := mkRow {
  epoch : cell;
  quant1 : cell;
  quant1_err : cell;
  quant2 : cell;
  quant2_err : cell;
  qtype : quant_type
}.

(** Python exceptions the function can end with. *)
Inductive exn :=
| Exception (msg : string)
| KeyError (key : string)
| AttributeError (attr : string).

Definition result (A : Type) : Type := exn + A.

Definition raise {A} (e : exn) : result A := inl e.
Definition ret {A} (a : A) : result A := inr a.
Definition bind {A B} (m : result A) (k : A → result B) : result B :=
  match m with
  | inl e => inl e
  | inr a => k a
  end.

Notation "'do' x <~ m ; k" := (bind m (λ x, k))
  (at level 10, x name, m at level 100, k at level 200).

Definition MissingColumnError : exn :=
  Exception "Input table MUST have epoch!".
Definition IncompleteColumnError : exn :=
  Exception "Invalid input format: missing some epoch entries".

(** ** The program *)

(** [MJD = JD - 2400000.5] *)
Definition JD_OFFSET : float := 2400000.5%float.

(** [~column.mask], one entry of it. *)
Definition present (c : cell) : bool :=
  match c with Some _ => true | None => false end.

(** [~input_table[name].mask] when the column exists, else
    [np.zeros(num_measurements, dtype=bool)]; the column of a [Table] is
    masked, so it has a mask. *)
Definition have (input_table : Table) (name : string) : list bool :=
  match columns input_table !! name with
  | Some col => present <$> col
  | None => replicate (len input_table) false
  end.

(** [row[name]] for the row at [index]: a [KeyError] when the table has no
    such column.  (A well-formed table has the entry; outside it the read
    is a masked value.) *)
Definition getitem (input_table : Table) (index : nat) (name : string)
  : result cell :=
  match columns input_table !! name with
  | Some col => ret (mjoin (col !! index))
  | None => raise (KeyError name)
  end.

(** [row['epoch'] > 2400000.5]; a comparison with a masked value is not
    true. *)
Definition is_JD (e : cell) : bool :=
  match e with
  | Some x => PrimFloat.ltb JD_OFFSET x
  | None => false
  end.

(** Lines 89-92. *)
Definition to_MJD (e : cell) : cell :=
  if is_JD e then (λ x, PrimFloat.sub x JD_OFFSET) <$> e else e.

(** [output_table.add_row(...)] *)
Definition add_row (output_table : list CanonicalRow) (r : CanonicalRow)
  : list CanonicalRow :=
  output_table ++ [r].

(** The presence vectors computed on lines 61-80, as the loop reads
    them. *)
Record Flags := mkFlags {
  have_ra : list bool;
  have_dec : list bool;
  have_sep : list bool;
  have_pa : list bool;
  have_rv : list bool
}.

(** The body of the [for row in input_table] loop (lines 88-100); the list
    elements of each [add_row] are evaluated left to right. *)
Definition loop_body (input_table : Table) (f : Flags) (index : nat)
    (output_table : list CanonicalRow) : result (list CanonicalRow) :=
  do e <~ getitem input_table index "epoch";
  let MJD := to_MJD e in
  do output_table <~
    (if nth index (have_ra f) false && nth index (have_dec f) false then
       do q1 <~ getitem input_table index "raoff";
       do q1e <~ getitem input_table index "raoff_err";
       do q2 <~ getitem input_table index "decoff";
       do q2e <~ getitem input_table index "decoff_err";
       ret (add_row output_table (mkRow MJD q1 q1e q2 q2e radec))
     else ret output_table);
  do output_table <~
    (if nth index (have_sep f) false && nth index (have_pa f) false then
       do q1 <~ getitem input_table index "sep";
       do q1e <~ getitem input_table index "sep_err";
       do q2 <~ getitem input_table index "pa";
       do q2e <~ getitem input_table index "pa_err";
       ret (add_row output_table (mkRow MJD q1 q1e q2 q2e seppa))
     else ret output_table);
  if nth index (have_rv f) false then
    do q1 <~ getitem input_table index "rv";
    do q1e <~ getitem input_table index "rv_err";
    ret (add_row output_table (mkRow MJD q1 q1e None None rv))
  else ret output_table.

(** Running a loop body over the indices in turn, stopping at the first
    exception. *)
Fixpoint for_each {S : Type} (body : nat → S → result S) (indices : list nat)
    (s : S) : result S :=
  match indices with
  | [] => ret s
  | index :: rest => do s' <~ body index s; for_each body rest s'
  end.

(** [read_formatted_file], from the table the reader returned. *)
Definition read_formatted_file (input_table : Table)
  : result (list CanonicalRow) :=
  let output_table : list CanonicalRow := [] in
  let num_measurements := len input_table in
  do have_epoch <~
    match columns input_table !! "epoch" with
    | Some col => ret (present <$> col)
    | None => raise MissingColumnError
    end;
  let have_ra := have input_table "raoff" in
  let have_dec := have input_table "decoff" in
  let have_sep := have input_table "sep" in
  let have_pa := have input_table "pa" in
  let have_rv := have input_table "rv" in
  if negb (forallb id have_epoch) then raise IncompleteColumnError
  else
    for_each
      (loop_body input_table (mkFlags have_ra have_dec have_sep have_pa have_rv))
      (seq 0 num_measurements) output_table.

(** ** Reading the program's result *)

(** The cell of column [name] at row [index]; a column the table lacks
    holds no value anywhere. *)
Definition cell_at (t : Table) (name : string) (index : nat) : cell :=
  match columns t !! name with
  | Some col => mjoin (col !! index)
  | None => None
  end.

(** The three classification conditions of a row. *)
Definition has_radec (t : Table) (index : nat) : bool :=
  present (cell_at t "raoff" index) && present (cell_at t "decoff" index).
Definition has_seppa (t : Table) (index : nat) : bool :=
  present (cell_at t "sep" index) && present (cell_at t "pa" index).
Definition has_rv (t : Table) (index : nat) : bool :=
  present (cell_at t "rv" index).

Definition satisfied (t : Table) (index : nat) (q : quant_type) : bool :=
  match q with
  | radec => has_radec t index
  | seppa => has_seppa t index
  | rv => has_rv t index
  end.

(** How many measurement types a row yields. *)
Definition num_types (t : Table) (index : nat) : nat :=
  length (filter (λ q, satisfied t index q = true) [radec; seppa; rv]).

(** The presence vectors [read_formatted_file] hands to its loop. *)
Definition flags_of (input_table : Table) : Flags :=
  mkFlags (have input_table "raoff") (have input_table "decoff")
          (have input_table "sep") (have input_table "pa")
          (have input_table "rv").

(** The rows the loop body adds for the row at [index]. *)
Definition emitted (t : Table) (index : nat) : result (list CanonicalRow) :=
  loop_body t (flags_of t) index [].

(** The output row of one measurement type for the row at [index]. *)
Definition row_of (t : Table) (index : nat) (q : quant_type) : CanonicalRow :=
  let MJD := to_MJD (cell_at t "epoch" index) in
  match q with
  | radec => mkRow MJD (cell_at t "raoff" index) (cell_at t "raoff_err" index)
               (cell_at t "decoff" index) (cell_at t "decoff_err" index) radec
  | seppa => mkRow MJD (cell_at t "sep" index) (cell_at t "sep_err" index)
               (cell_at t "pa" index) (cell_at t "pa_err" index) seppa
  | rv => mkRow MJD (cell_at t "rv" index) (cell_at t "rv_err" index)
               None None rv
  end.

Definition fan_out (t : Table) (index : nat) : list CanonicalRow :=
  row_of t index <$> filter (λ q, satisfied t index q = true) [radec; seppa; rv].

(** The lookups a row performs, beyond those its presence flags imply. *)
Definition lookups_ok (t : Table) (i : nat) : Prop :=
  is_Some (columns t !! "epoch") ∧
  (has_radec t i = true →
     is_Some (columns t !! "raoff_err") ∧ is_Some (columns t !! "decoff_err")) ∧
  (has_seppa t i = true →
     is_Some (columns t !! "sep_err") ∧ is_Some (columns t !! "pa_err")) ∧
  (has_rv t i = true → is_Some (columns t !! "rv_err")).

(** The epoch column exists and none of its cells is masked. *)
Definition epoch_complete (t : Table) : Prop :=
  ∃ col, columns t !! "epoch" = Some col ∧ Forall is_Some col.

(** What every row of an output table satisfies. *)
Definition canonical (r : CanonicalRow) : Prop :=
  is_Some (epoch r) ∧ is_Some (quant1 r) ∧
  match qtype r with
  | rv => quant2 r = None ∧ quant2_err r = None
  | _ => is_Some (quant2 r)
  end.

(** The five error columns of the input header. *)
Definition error_columns : list string :=
  ["raoff_err"; "decoff_err"; "sep_err"; "pa_err"; "rv_err"].

(** The eleven column names the function looks at, and the six that carry
    a quantity rather than its error. *)
Definition known_columns : list string :=
  ["epoch"; "raoff"; "raoff_err"; "decoff"; "decoff_err";
   "sep"; "sep_err"; "pa"; "pa_err"; "rv"; "rv_err"].

Definition primary_columns : list string :=
  ["epoch"; "raoff"; "decoff"; "sep"; "pa"; "rv"].

(** ['name' not in input_table.columns] *)
Definition absent (t : Table) (name : string) : bool :=
  match columns t !! name with
  | Some _ => false
  | None => true
  end.

(** The error columns the loop body reads for the row at [index], in the
    order in which it reads them. *)
Definition error_reads (t : Table) (index : nat) : list string :=
  (if has_radec t index then ["raoff_err"; "decoff_err"] else []) ++
  (if has_seppa t index then ["sep_err"; "pa_err"] else []) ++
  (if has_rv t index then ["rv_err"] else []).

(** The first of them that the header lacks, for one row and for the
    table. *)
Definition first_missing (t : Table) (index : nat) : option string :=
  head (filter (λ name, absent t name = true) (error_reads t index)).

Definition first_key_error (t : Table) : option string :=
  head (omap (first_missing t) (seq 0 (len t))).

(** An output row without its two error entries. *)
Definition erase_errors (r : CanonicalRow) : CanonicalRow :=
  mkRow (epoch r) (quant1 r) None (quant2 r) None (qtype r).

(** The result of a run with the error entries of its rows erased. *)
Definition erase_result (res : result (list CanonicalRow))
  : result (list CanonicalRow) :=
  match res with
  | inl e => inl e
  | inr out => inr (erase_errors <$> out)
  end.

(** ** The reader's table in general *)

(** A column as the reader returns it: a plain [Column], which has no
    [mask] attribute, or a [MaskedColumn]. *)
Inductive Column :=
| PlainColumn (data : list float)
| MaskedColumn (cells : list cell).

Record ReadTable := mkReadTable {
  read_len : nat;
  read_columns : gmap string Column
}.

Definition read_table_of (n : nat) (cols : list (string * Column))
  : ReadTable :=
  mkReadTable n (list_to_map cols).

(** The entries of a column as [row[name]] reads them: every entry of a
    plain column is a value. *)
Definition cells_of (c : Column) : list cell :=
  match c with
  | PlainColumn data => Some <$> data
  | MaskedColumn cells => cells
  end.

(** The rows of a reader's table, for [row[name]]. *)
Definition as_table (t : ReadTable) : Table :=
  mkTable (read_len t) (cells_of <$> read_columns t).

(** [~column.mask]: an [AttributeError] on a plain column. *)
Definition not_mask (c : Column) : result (list bool) :=
  match c with
  | MaskedColumn cells => ret (present <$> cells)
  | PlainColumn _ => raise (AttributeError "mask")
  end.

(** [~input_table[name].mask] when the column exists, else
    [np.zeros(num_measurements, dtype=bool)] (lines 61-80). *)
Definition have_from (input_table : ReadTable) (name : string)
  : result (list bool) :=
  match read_columns input_table !! name with
  | Some c => not_mask c
  | None => ret (replicate (read_len input_table) false)
  end.

(** [read_formatted_file], from any table of the reader. *)
Definition read_formatted_file_from (input_table : ReadTable)
  : result (list CanonicalRow) :=
  let output_table : list CanonicalRow := [] in
  let num_measurements := read_len input_table in
  do have_epoch <~
    match read_columns input_table !! "epoch" with
    | Some c => not_mask c
    | None => raise MissingColumnError
    end;
  do have_ra <~ have_from input_table "raoff";
  do have_dec <~ have_from input_table "decoff";
  do have_sep <~ have_from input_table "sep";
  do have_pa <~ have_from input_table "pa";
  do have_rv <~ have_from input_table "rv";
  if negb (forallb id have_epoch) then raise IncompleteColumnError
  else
    for_each
      (loop_body (as_table input_table)
         (mkFlags have_ra have_dec have_sep have_pa have_rv))
      (seq 0 num_measurements) output_table.

(** The column is there and plain. *)
Definition plain (t : ReadTable) (name : string) : bool :=
  match read_columns t !! name with
  | Some (PlainColumn _) => true
  | _ => false
  end.

(** ** The stored table *)

(** One row of the output table as the table holds it: five float64
    entries and the type. *)
Record StoredRow := mkStored {
  s_epoch : float;
  s_quant1 : float;
  s_quant1_err : float;
  s_quant2 : float;
  s_quant2_err : float;
  s_type : quant_type
}.

(** A masked value written into an unmasked float column leaves the data
    under the mask, 0.0. *)
Definition store_cell (c : cell) : float :=
  match c with
  | Some x => x
  | None => PrimFloat.zero
  end.

(** What [add_row] keeps of a row in the unmasked float table of lines
    49-50.  The [None] of the [rv] row (line 99) becomes nan; every other
    entry is a cell read from the input row (lines 95, 97, 99), a masked
    one becoming 0.0. *)
Definition store (r : CanonicalRow) : StoredRow :=
  match qtype r with
  | rv =>
      mkStored (store_cell (epoch r)) (store_cell (quant1 r))
               (store_cell (quant1_err r)) PrimFloat.nan PrimFloat.nan rv
  | q =>
      mkStored (store_cell (epoch r)) (store_cell (quant1 r))
               (store_cell (quant1_err r)) (store_cell (quant2 r))
               (store_cell (quant2_err r)) q
  end.

(** The table [read_formatted_file] returns, as stored. *)
Definition stored_table (t : Table) : result (list StoredRow) :=
  match read_formatted_file t with
  | inl e => inl e
  | inr out => inr (store <$> out)
  end.

(** The rows the loop body adds for the row at [index], as stored. *)
Definition emitted_stored (t : Table) (index : nat)
  : result (list StoredRow) :=
  match emitted t index with
  | inl e => inl e
  | inr g => inr (store <$> g)
  end.

(** [MJD] of an epoch value (lines 89-92). *)
Definition MJD_of (e : float) : float :=
  if PrimFloat.ltb JD_OFFSET e then PrimFloat.sub e JD_OFFSET else e.

(** ** Relabelling a canonical table *)

(** Follows the spec's words ("re-labeled with original column names
    matching quant1 -> raoff/sep/rv per type"): a canonical table read back
    as an input table.  Each canonical row becomes one input row holding
    its epoch and, under the input names of its [quant_type], its four
    quantities; the columns of the other measurement sets are blank in that
    row. *)
Definition only (q : quant_type) (field : CanonicalRow → cell)
    (r : CanonicalRow) : cell :=
  if decide (qtype r = q) then field r else None.

Definition relabel (out : list CanonicalRow) : Table :=
  table_of (length out)
    [("epoch", epoch <$> out);
     ("raoff", only radec quant1 <$> out);
     ("raoff_err", only radec quant1_err <$> out);
     ("decoff", only radec quant2 <$> out);
     ("decoff_err", only radec quant2_err <$> out);
     ("sep", only seppa quant1 <$> out);
     ("sep_err", only seppa quant1_err <$> out);
     ("pa", only seppa quant2 <$> out);
     ("pa_err", only seppa quant2_err <$> out);
     ("rv", only rv quant1 <$> out);
     ("rv_err", only rv quant1_err <$> out)].

(** ** Example tables *)

(** Two rows under the full header: the first carries all three
    measurement sets at a Julian date, the second a lone [raoff]. *)
Definition full_table : Table :=
  table_of 2
    [("epoch", [Some 2451545.0; Some 51544.5]);
     ("raoff", [Some 0.25; Some 0.5]);
     ("raoff_err", [Some 0.0625; None]);
     ("decoff", [Some 0.75; None]);
     ("decoff_err", [None; None]);
     ("sep", [Some 1.5; None]);
     ("sep_err", [Some 0.125; None]);
     ("pa", [Some 30.0; None]);
     ("pa_err", [Some 2.0; None]);
     ("rv", [Some 5.5; None]);
     ("rv_err", [None; None])]%float.

Definition full_output : list CanonicalRow :=
  [mkRow (Some 51544.5) (Some 0.25) (Some 0.0625) (Some 0.75) None radec;
   mkRow (Some 51544.5) (Some 1.5) (Some 0.125) (Some 30.0) (Some 2.0) seppa;
   mkRow (Some 51544.5) (Some 5.5) None None None rv]%float.

(** Three rows that each yield a measurement: RA/Dec with a radial
    velocity, a separation and position angle, and all three sets. *)
Definition mixed_table : Table :=
  table_of 3
    [("epoch", [Some 2451545.0; Some 2451546.0; Some 51546.5]);
     ("raoff", [Some 0.25; None; Some 0.5]);
     ("raoff_err", [Some 0.0625; None; None]);
     ("decoff", [Some 0.75; None; Some 1.0]);
     ("decoff_err", [Some 0.0625; None; None]);
     ("sep", [None; Some 1.5; Some 1.25]);
     ("sep_err", [None; Some 0.125; Some 0.125]);
     ("pa", [None; Some 30.0; Some 60.0]);
     ("pa_err", [None; Some 2.0; Some 2.0]);
     ("rv", [Some 5.5; None; Some 6.5]);
     ("rv_err", [Some 0.5; None; Some 0.5])]%float.

Definition mixed_output : list CanonicalRow :=
  [mkRow (Some 51544.5) (Some 0.25) (Some 0.0625) (Some 0.75) (Some 0.0625) radec;
   mkRow (Some 51544.5) (Some 5.5) (Some 0.5) None None rv;
   mkRow (Some 51545.5) (Some 1.5) (Some 0.125) (Some 30.0) (Some 2.0) seppa;
   mkRow (Some 51546.5) (Some 0.5) None (Some 1.0) None radec;
   mkRow (Some 51546.5) (Some 1.25) (Some 0.125) (Some 60.0) (Some 2.0) seppa;
   mkRow (Some 51546.5) (Some 6.5) (Some 0.5) None None rv]%float.

(** Three rows of which only the first yields anything: RA/Dec and a
    radial velocity; the other two carry a lone [raoff]. *)
Definition sparse_table : Table :=
  table_of 3
    [("epoch", [Some 51544.5; Some 51545.5; Some 51546.5]);
     ("raoff", [Some 0.25; Some 0.5; Some 0.75]);
     ("raoff_err", [Some 0.0625; Some 0.0625; Some 0.0625]);
     ("decoff", [Some 0.75; None; None]);
     ("decoff_err", [Some 0.0625; None; None]);
     ("rv", [Some 5.5; None; None]);
     ("rv_err", [Some 0.5; None; None])]%float.

Definition sparse_output : list CanonicalRow :=
  [mkRow (Some 51544.5) (Some 0.25) (Some 0.0625) (Some 0.75) (Some 0.0625) radec;
   mkRow (Some 51544.5) (Some 5.5) (Some 0.5) None None rv]%float.

(** Three radial velocities: a Julian date, a Modified Julian date and the
    threshold itself. *)
Definition epoch_table : Table :=
  table_of 3
    [("epoch", [Some 2451545.0; Some 51544.5; Some 2400000.5]);
     ("rv", [Some 1.0; Some 2.0; Some 3.0]);
     ("rv_err", [Some 0.5; Some 0.5; Some 0.5])]%float.

Definition epoch_output : list CanonicalRow :=
  [mkRow (Some 51544.5) (Some 1.0) (Some 0.5) None None rv;
   mkRow (Some 51544.5) (Some 2.0) (Some 0.5) None None rv;
   mkRow (Some 2400000.5) (Some 3.0) (Some 0.5) None None rv]%float.

(** A header without [epoch]. *)
Definition no_epoch_table : Table :=
  table_of 1
    [("raoff", [Some 0.25]); ("raoff_err", [Some 0.0625]);
     ("decoff", [Some 0.75]); ("decoff_err", [Some 0.0625])]%float.


(** One radial velocity at a Julian date beyond 4800001. *)
Definition far_table : Table :=
  table_of 1
    [("epoch", [Some 5000000.0]); ("rv", [Some 1.0]);
     ("rv_err", [Some 0.5])]%float.

Definition far_output : list CanonicalRow :=
  [mkRow (Some 2599999.5) (Some 1.0) (Some 0.5) None None rv]%float.

Definition far_output_again : list CanonicalRow :=
  [mkRow (Some 199999.0) (Some 1.0) (Some 0.5) None None rv]%float.

(** A header with the offsets and no error columns; the second row has a
    blank [decoff]. *)
Definition bare_radec_table : Table :=
  table_of 2
    [("epoch", [Some 51544.5; Some 51545.5]);
     ("raoff", [Some 0.25; Some 0.5]);
     ("decoff", [Some 0.75; None])]%float.

(** The same rows under a header that has the error columns, left blank. *)
Definition blank_err_radec_table : Table :=
  table_of 2
    [("epoch", [Some 51544.5; Some 51545.5]);
     ("raoff", [Some 0.25; Some 0.5]);
     ("raoff_err", [None; None]);
     ("decoff", [Some 0.75; None]);
     ("decoff_err", [None; None])]%float.

(** A header with [epoch] and [rv] only: no [sep], no [pa], no [rv_err]. *)
Definition bare_rv_table : Table :=
  table_of 2
    [("epoch", [Some 51544.5; Some 51545.5]);
     ("rv", [Some 5.5; None])]%float.

(** The first row of [mixed_table] as a table of its own. *)
Definition first_row_table : Table :=
  table_of 1
    [("epoch", [Some 2451545.0]);
     ("raoff", [Some 0.25]); ("raoff_err", [Some 0.0625]);
     ("decoff", [Some 0.75]); ("decoff_err", [Some 0.0625]);
     ("sep", [None]); ("sep_err", [None]);
     ("pa", [None]); ("pa_err", [None]);
     ("rv", [Some 5.5]); ("rv_err", [Some 0.5])]%float.

(** [mixed_table] with other errors, one of them blank. *)
Definition other_errors_table : Table :=
  table_of 3
    [("epoch", [Some 2451545.0; Some 2451546.0; Some 51546.5]);
     ("raoff", [Some 0.25; None; Some 0.5]);
     ("raoff_err", [Some 0.125; Some 0.125; Some 0.125]);
     ("decoff", [Some 0.75; None; Some 1.0]);
     ("decoff_err", [None; None; Some 0.125]);
     ("sep", [None; Some 1.5; Some 1.25]);
     ("sep_err", [None; Some 0.25; Some 0.25]);
     ("pa", [None; Some 30.0; Some 60.0]);
     ("pa_err", [None; Some 4.0; Some 4.0]);
     ("rv", [Some 5.5; None; Some 6.5]);
     ("rv_err", [Some 1.5; None; None])]%float.

(** A header with [epoch] alone. *)
Definition epoch_only_table : Table :=
  table_of 2 [("epoch", [Some 51544.5; Some 2451545.0])]%float.

(** A file without a blank cell, as the reader returns it: plain columns
    throughout. *)
Definition plain_read_table : ReadTable :=
  read_table_of 3
    [("epoch", PlainColumn [2451545.0; 51544.5; 2400000.5]);
     ("rv", PlainColumn [1.0; 2.0; 3.0]);
     ("rv_err", PlainColumn [0.5; 0.5; 0.5])]%float.

(** A file whose only blank is an epoch: the other columns are plain. *)
Definition blank_epoch_read_table : ReadTable :=
  read_table_of 3
    [("epoch", MaskedColumn [Some 51544.5; None; Some 51546.5]);
     ("rv", PlainColumn [1.0; 2.0; 3.0]);
     ("rv_err", PlainColumn [0.5; 0.5; 0.5])]%float.

(** [mixed_table] as a reader's table of masked columns. *)
Definition mixed_read_table : ReadTable :=
  read_table_of 3
    [("epoch", MaskedColumn [Some 2451545.0; Some 2451546.0; Some 51546.5]);
     ("raoff", MaskedColumn [Some 0.25; None; Some 0.5]);
     ("raoff_err", MaskedColumn [Some 0.0625; None; None]);
     ("decoff", MaskedColumn [Some 0.75; None; Some 1.0]);
     ("decoff_err", MaskedColumn [Some 0.0625; None; None]);
     ("sep", MaskedColumn [None; Some 1.5; Some 1.25]);
     ("sep_err", MaskedColumn [None; Some 0.125; Some 0.125]);
     ("pa", MaskedColumn [None; Some 30.0; Some 60.0]);
     ("pa_err", MaskedColumn [None; Some 2.0; Some 2.0]);
     ("rv", MaskedColumn [Some 5.5; None; Some 6.5]);
     ("rv_err", MaskedColumn [Some 0.5; None; Some 0.5])]%float.

(** A masked [epoch] column alone. *)
Definition epoch_only_read_table : ReadTable :=
  read_table_of 2 [("epoch", MaskedColumn [Some 51544.5; Some 2451545.0])]%float.

(** Masked [epoch] and [rv] columns and no [rv_err]. *)
Definition bare_rv_read_table : ReadTable :=
  read_table_of 2
    [("epoch", MaskedColumn [Some 51544.5; Some 51545.5]);
     ("rv", MaskedColumn [Some 5.5; None])]%float.

(** [full_table] as the output table stores it. *)
Definition full_stored : list StoredRow :=
  [mkStored 51544.5 0.25 0.0625 0.75 0 radec;
   mkStored 51544.5 1.5 0.125 30.0 2.0 seppa;
   mkStored 51544.5 5.5 0 PrimFloat.nan PrimFloat.nan rv]%float.

(** ** The error monad and the table reads *)

Lemma bind_inr {A B} (m : result A) (k : A → result B) (b : B) :
  bind m k = inr b ↔ ∃ a, m = inr a ∧ k a = inr b.
Proof.
  destruct m as [e|a]; simpl; split.
  - discriminate.
  - intros (a & Ha & _). discriminate.
  - eauto.
  - intros (a' & [= <-] & Hk). exact Hk.
Qed.

Lemma nth_have (t : Table) (name : string) (i : nat) :
  nth i (have t name) false = present (cell_at t name i).
Proof.
  unfold have, cell_at. destruct (columns t !! name) as [col|].
  - revert i. induction col as [|c col IH]; intros [|i]; simpl; auto.
  - generalize (len t) as n. revert i.
    induction i as [|i IH]; intros [|n]; simpl; auto.
Qed.

Lemma getitem_Some (t : Table) (i : nat) (name : string) (col : list cell) :
  columns t !! name = Some col → getitem t i name = inr (cell_at t name i).
Proof. unfold getitem, cell_at. by intros ->. Qed.

Lemma getitem_None (t : Table) (i : nat) (name : string) :
  columns t !! name = None → getitem t i name = inl (KeyError name).
Proof. unfold getitem. by intros ->. Qed.

Lemma getitem_inr (t : Table) (i : nat) (name : string) (c : cell) :
  getitem t i name = inr c ↔
  is_Some (columns t !! name) ∧ c = cell_at t name i.
Proof.
  unfold getitem, cell_at.
  destruct (columns t !! name) as [col|]; simpl; split.
  - intros [= <-]. eauto.
  - by intros [_ ->].
  - discriminate.
  - by intros [[? [=]] _].
Qed.

Lemma present_column (t : Table) (name : string) (i : nat) :
  present (cell_at t name i) = true → is_Some (columns t !! name).
Proof. unfold cell_at. destruct (columns t !! name); [eauto | discriminate]. Qed.

Lemma present_is_Some (c : cell) : present c = true ↔ is_Some c.
Proof. destruct c; simpl; split; eauto; try discriminate. by intros [? ?]. Qed.

Lemma to_MJD_is_Some (c : cell) : is_Some c → is_Some (to_MJD c).
Proof. intros [e ->]. unfold to_MJD. destruct (is_JD (Some e)); simpl; eauto. Qed.

(** ** The loop body *)

(** The body only appends: what it adds does not depend on the rows
    already in the output table. *)
Lemma loop_body_append (t : Table) (f : Flags) (i : nat)
    (acc : list CanonicalRow) :
  loop_body t f i acc =
  match loop_body t f i [] with
  | inl e => inl e
  | inr g => inr (acc ++ g)
  end.
Proof.
  unfold loop_body, bind, ret, add_row.
  repeat case_match; simplify_eq; try reflexivity;
    rewrite ?app_nil_l, ?app_nil_r, <- ?app_assoc; reflexivity.
Qed.

Lemma fan_out_unfold (t : Table) (i : nat) :
  fan_out t i =
  (if has_radec t i then [row_of t i radec] else []) ++
  (if has_seppa t i then [row_of t i seppa] else []) ++
  (if has_rv t i then [row_of t i rv] else []).
Proof.
  unfold fan_out. rewrite !filter_cons, filter_nil. simpl.
  destruct (has_radec t i), (has_seppa t i), (has_rv t i); reflexivity.
Qed.

(** One guarded [add_row] of two quantities and their errors. *)
Lemma pair_block_inr (t : Table) (i : nat) (a ae b be : string)
    (mk : cell → cell → cell → cell → CanonicalRow)
    (acc out : list CanonicalRow) :
  (if present (cell_at t a i) && present (cell_at t b i) then
     do q1 <~ getitem t i a;
     do q1e <~ getitem t i ae;
     do q2 <~ getitem t i b;
     do q2e <~ getitem t i be;
     ret (add_row acc (mk q1 q1e q2 q2e))
   else ret acc) = inr out ↔
  (present (cell_at t a i) && present (cell_at t b i) = true →
     is_Some (columns t !! ae) ∧ is_Some (columns t !! be)) ∧
  out = acc ++
    (if present (cell_at t a i) && present (cell_at t b i)
     then [mk (cell_at t a i) (cell_at t ae i) (cell_at t b i) (cell_at t be i)]
     else []).
Proof.
  destruct (present (cell_at t a i) && present (cell_at t b i)) eqn:Hc.
  - apply andb_true_iff in Hc as [Ha Hb].
    apply present_column in Ha as [ca Ha], Hb as [cb Hb].
    rewrite (getitem_Some _ _ _ _ Ha), (getitem_Some _ _ _ _ Hb). simpl.
    unfold getitem, cell_at, add_row.
    destruct (columns t !! ae), (columns t !! be); simpl; split;
      try discriminate; try (intros [= <-]; eauto; fail);
      try (intros [_ ->]; reflexivity);
      intros [Hs _]; destruct (Hs eq_refl) as [[? ?] [? ?]]; discriminate.
  - unfold ret. rewrite app_nil_r. split.
    + intros [= <-]. split; [discriminate | reflexivity].
    + by intros [_ ->].
Qed.

(** The guarded [add_row] of the radial velocity. *)
Lemma rv_block_inr (t : Table) (i : nat) (MJD : cell)
    (acc out : list CanonicalRow) :
  (if present (cell_at t "rv" i) then
     do q1 <~ getitem t i "rv";
     do q1e <~ getitem t i "rv_err";
     ret (add_row acc (mkRow MJD q1 q1e None None rv))
   else ret acc) = inr out ↔
  (present (cell_at t "rv" i) = true → is_Some (columns t !! "rv_err")) ∧
  out = acc ++
    (if present (cell_at t "rv" i)
     then [mkRow MJD (cell_at t "rv" i) (cell_at t "rv_err" i) None None rv]
     else []).
Proof.
  destruct (present (cell_at t "rv" i)) eqn:Hc.
  - apply present_column in Hc as [c Hc].
    rewrite (getitem_Some _ _ _ _ Hc). simpl.
    unfold getitem, cell_at, add_row.
    destruct (columns t !! "rv_err"); simpl; split;
      try discriminate; try (intros [= <-]; eauto; fail);
      try (intros [_ ->]; reflexivity).
    intros [Hs _]. destruct (Hs eq_refl) as [? ?]. discriminate.
  - unfold ret. rewrite app_nil_r. split.
    + intros [= <-]. split; [discriminate | reflexivity].
    + by intros [_ ->].
Qed.

(** What the loop body does with one row: it succeeds exactly when the
    lookups it performs find their columns, and then adds [fan_out]. *)
Lemma loop_body_inr (t : Table) (i : nat) (acc out : list CanonicalRow) :
  loop_body t (flags_of t) i acc = inr out ↔
  lookups_ok t i ∧ out = acc ++ fan_out t i.
Proof.
  unfold loop_body, lookups_ok.
  cbn [flags_of have_ra have_dec have_sep have_pa have_rv].
  rewrite !nth_have, fan_out_unfold, bind_inr.
  unfold has_radec, has_seppa, has_rv, row_of.
  split.
  - intros (e & He & H). apply getitem_inr in He as [Hep ->].
    apply bind_inr in H as (o1 & H1 & H).
    apply bind_inr in H as (o2 & H2 & H).
    apply pair_block_inr in H1 as [Hrd ->].
    apply pair_block_inr in H2 as [Hsp ->].
    apply rv_block_inr in H as [Hrv ->].
    rewrite <- !app_assoc. auto.
  - intros ((Hep & Hrd & Hsp & Hrv) & ->).
    exists (cell_at t "epoch" i). split.
    { apply getitem_inr. auto. }
    apply bind_inr. eexists. split.
    { apply pair_block_inr. split; [exact Hrd | reflexivity]. }
    apply bind_inr. eexists. split.
    { apply pair_block_inr. split; [exact Hsp | reflexivity]. }
    apply rv_block_inr. split; [exact Hrv |].
    rewrite <- !app_assoc. reflexivity.
Qed.

Lemma emitted_inr (t : Table) (i : nat) (g : list CanonicalRow) :
  emitted t i = inr g ↔ lookups_ok t i ∧ g = fan_out t i.
Proof. unfold emitted. rewrite loop_body_inr, app_nil_l. reflexivity. Qed.

(** ** Facts about lists *)

Section concat_facts.
Context {A : Type}.
Implicit Types (groups : list (list A)) (l g : list A).

Lemma concat_split_at (groups : list (list A)) (i : nat) (g : list A) :
  groups !! i = Some g →
  concat groups = concat (take i groups) ++ g ++ concat (drop (S i) groups).
Proof.
  intros Hg. rewrite <- (take_drop_middle groups i g Hg) at 1.
  by rewrite concat_app, concat_cons.
Qed.

Lemma concat_split_two (groups : list (list A)) (i j : nat)
    (gi gj : list A) :
  i < j → groups !! i = Some gi → groups !! j = Some gj →
  concat groups =
    concat (take i groups) ++ gi ++
    concat (take (j - S i) (drop (S i) groups)) ++ gj ++
    concat (drop (S j) groups).
Proof.
  intros Hij Hi Hj. rewrite (concat_split_at groups i gi Hi).
  assert (drop (S i) groups !! (j - S i) = Some gj) as Hj'.
  { rewrite lookup_drop. by replace (S i + (j - S i)) with j by lia. }
  rewrite (concat_split_at (drop (S i) groups) (j - S i) gj Hj').
  rewrite drop_drop. by replace (S i + S (j - S i)) with (S j) by lia.
Qed.

Lemma concat_singletons (f : nat → list A) (l : list A) (k : nat) :
  (∀ i a, l !! i = Some a → f (k + i) = [a]) →
  concat (f <$> seq k (length l)) = l.
Proof.
  revert k. induction l as [|a l IH]; intros k Hf; [done |].
  simpl. rewrite <- (Nat.add_0_r k) at 1. rewrite (Hf 0 a eq_refl).
  simpl. f_equal. apply IH. intros i b Hb.
  replace (S k + i) with (k + S i) by lia. by apply Hf.
Qed.

End concat_facts.

Lemma length_concat_fmap {A B} (f : A → list B) (l : list A) :
  length (concat (f <$> l)) = sum_list_with (λ a, length (f a)) l.
Proof.
  induction l as [|a l IH]; [done |].
  rewrite fmap_cons, concat_cons, length_app, IH. reflexivity.
Qed.

Lemma sum_list_with_ge (f : nat → nat) (l : list nat) :
  Forall (λ i, 1 ≤ f i) l → length l ≤ sum_list_with f l.
Proof. induction 1; simpl; lia. Qed.

Lemma sum_list_with_gt (f : nat → nat) (l : list nat) :
  Forall (λ i, 1 ≤ f i) l → Exists (λ i, 2 ≤ f i) l →
  length l < sum_list_with f l.
Proof.
  intros Hall Hex. induction Hall as [|i l Hi Hall IH]; simpl.
  - by apply Exists_nil in Hex.
  - pose proof (sum_list_with_ge f l Hall).
    apply Exists_cons in Hex as [Hex|Hex]; [lia |]. specialize (IH Hex). lia.
Qed.

Lemma forallb_present (col : list cell) :
  forallb id (present <$> col) = true ↔ Forall is_Some col.
Proof.
  induction col as [|c col IH]; simpl.
  - split; auto.
  - rewrite andb_true_iff, Forall_cons, IH.
    destruct c; simpl; split; intros [H1 H2]; split; eauto;
      try discriminate. by destruct H1.
Qed.

Lemma forallb_present_false (col : list cell) :
  forallb id (present <$> col) = false ↔ None ∈ col.
Proof.
  induction col as [|c col IH]; simpl.
  - split; [discriminate | by intros ?%elem_of_nil].
  - rewrite andb_false_iff, IH, elem_of_cons.
    destruct c; simpl; split; intros [H|H]; auto; try discriminate.
Qed.

(** ** The loop and the whole function *)

Lemma for_each_inr (t : Table) (indices : list nat)
    (acc out : list CanonicalRow) :
  for_each (loop_body t (flags_of t)) indices acc = inr out ↔
  Forall (lookups_ok t) indices ∧ out = acc ++ concat (fan_out t <$> indices).
Proof.
  revert acc. induction indices as [|i rest IH]; intros acc; simpl.
  - rewrite app_nil_r. unfold ret. split.
    + intros [= <-]. auto.
    + by intros [_ ->].
  - rewrite bind_inr. split.
    + intros (s' & Hbody & Hrest).
      apply loop_body_inr in Hbody as [Hok ->].
      apply IH in Hrest as [Hoks ->].
      rewrite <- app_assoc. auto.
    + intros [Hoks ->]. apply Forall_cons in Hoks as [Hok Hoks].
      exists (acc ++ fan_out t i). split.
      * apply loop_body_inr. auto.
      * apply IH. rewrite <- app_assoc. auto.
Qed.

(** When [read_formatted_file] returns a table, and which. *)
Lemma read_formatted_file_inr (t : Table) (out : list CanonicalRow) :
  read_formatted_file t = inr out ↔
  epoch_complete t ∧ Forall (lookups_ok t) (seq 0 (len t)) ∧
  out = concat (fan_out t <$> seq 0 (len t)).
Proof.
  unfold read_formatted_file, epoch_complete.
  destruct (columns t !! "epoch") as [col|] eqn:Hep; simpl.
  - destruct (forallb id (present <$> col)) eqn:Hall; simpl.
    + change (mkFlags _ _ _ _ _) with (flags_of t).
      rewrite for_each_inr, app_nil_l. apply forallb_present in Hall.
      split; [intros [? ?]; eauto | intros [_ ?]; auto].
    + split; [discriminate |]. intros [(col' & [= <-] & Hc) _].
      apply forallb_present in Hc. congruence.
  - split; [discriminate |]. intros [(col' & [=] & _) _].
Qed.

(** The output table is the rows of input row 0, then those of input row
    1, and so on: one group per input row, each what the loop body emits
    for that row. *)
Lemma normalized_groups (t : Table) (out : list CanonicalRow) :
  read_formatted_file t = inr out →
  ∃ groups : list (list CanonicalRow),
    length groups = len t ∧ out = concat groups ∧
    ∀ i g, groups !! i = Some g → i < len t ∧ emitted t i = inr g.
Proof.
  intros (_ & Hoks & ->)%read_formatted_file_inr.
  exists (fan_out t <$> seq 0 (len t)).
  split; [by rewrite length_fmap, length_seq |]. split; [done |].
  intros i g Hg. apply list_lookup_fmap_Some in Hg as (j & -> & Hj).
  apply lookup_seq in Hj as [-> Hlt]. simpl. split; [done |].
  apply emitted_inr. split; [| done].
  rewrite Forall_forall in Hoks. apply Hoks. apply elem_of_seq. lia.
Qed.

(** ** Row fan-out *)

Lemma fan_out_types (t : Table) (i : nat) :
  qtype <$> fan_out t i =
  filter (λ q, satisfied t i q = true) [radec; seppa; rv].
Proof.
  rewrite fan_out_unfold, !filter_cons, filter_nil. simpl.
  destruct (has_radec t i), (has_seppa t i), (has_rv t i); reflexivity.
Qed.

Lemma fan_out_count (t : Table) (i : nat) (q : quant_type) :
  length (filter (λ r, qtype r = q) (fan_out t i)) =
  if satisfied t i q then 1 else 0.
Proof.
  rewrite fan_out_unfold.
  destruct q; simpl;
    destruct (has_radec t i), (has_seppa t i), (has_rv t i); reflexivity.
Qed.

Lemma fan_out_length (t : Table) (i : nat) :
  length (fan_out t i) = num_types t i.
Proof. unfold fan_out, num_types. apply length_fmap. Qed.

Lemma num_types_le (t : Table) (i : nat) : num_types t i ≤ 3.
Proof. unfold num_types. apply (length_filter _ [radec; seppa; rv]). Qed.

Lemma fan_out_elem (t : Table) (i : nat) (r : CanonicalRow) :
  r ∈ fan_out t i → ∃ q, satisfied t i q = true ∧ r = row_of t i q.
Proof.
  unfold fan_out. intros (q & -> & Hq)%list_elem_of_fmap.
  apply list_elem_of_filter in Hq as [Hq _]. eauto.
Qed.

Lemma fan_out_none (t : Table) (i : nat) :
  has_radec t i = false → has_seppa t i = false → has_rv t i = false →
  fan_out t i = [].
Proof. rewrite fan_out_unfold. by intros -> -> ->. Qed.

Lemma num_types_0 (t : Table) (i : nat) :
  num_types t i = 0 →
  has_radec t i = false ∧ has_seppa t i = false ∧ has_rv t i = false.
Proof.
  unfold num_types. rewrite !filter_cons, filter_nil. simpl.
  destruct (has_radec t i), (has_seppa t i), (has_rv t i);
    simpl; auto; discriminate.
Qed.

Lemma output_length (t : Table) (out : list CanonicalRow) :
  read_formatted_file t = inr out →
  length out = sum_list_with (num_types t) (seq 0 (len t)).
Proof.
  intros (_ & _ & ->)%read_formatted_file_inr.
  rewrite length_concat_fmap. induction (seq 0 (len t)) as [|i l IH]; simpl;
    [done |]. by rewrite fan_out_length, IH.
Qed.

(** ** Invariants of the output *)

Lemma epoch_cell (t : Table) (i : nat) :
  well_formed t → epoch_complete t → i < len t →
  ∃ e : float, cell_at t "epoch" i = Some e.
Proof.
  intros Hwf (col & Hcol & Hall) Hi. unfold cell_at. rewrite Hcol.
  pose proof (map_Forall_lookup_1 _ _ _ _ Hwf Hcol) as Hlen. simpl in Hlen.
  destruct (lookup_lt_is_Some_2 col i) as [c Hc]; [lia |].
  rewrite Hc. simpl.
  rewrite Forall_forall in Hall.
  destruct (Hall c) as [e ->]; [by eapply list_elem_of_lookup_2 | eauto].
Qed.

Lemma row_of_canonical (t : Table) (i : nat) (q : quant_type) :
  is_Some (cell_at t "epoch" i) → satisfied t i q = true →
  canonical (row_of t i q).
Proof.
  intros Hep Hq. unfold canonical.
  destruct q; simpl in *; unfold has_radec, has_seppa, has_rv in Hq;
    rewrite ?andb_true_iff, !present_is_Some in Hq;
    (split; [by apply to_MJD_is_Some |]); naive_solver.
Qed.

Lemma normalized_canonical (t : Table) (out : list CanonicalRow) :
  well_formed t → read_formatted_file t = inr out → Forall canonical out.
Proof.
  intros Hwf (Hep & _ & ->)%read_formatted_file_inr.
  apply Forall_concat, Forall_fmap, Forall_forall.
  intros i [_ Hi]%elem_of_seq. simpl in Hi.
  apply Forall_forall. intros r (q & Hq & ->)%fan_out_elem.
  apply row_of_canonical; [| done].
  destruct (epoch_cell t i Hwf Hep Hi) as [e ->]. eauto.
Qed.

(** ** Relabelled tables *)

Lemma cell_at_relabel (out : list CanonicalRow) (i : nat) (r : CanonicalRow) :
  out !! i = Some r →
  cell_at (relabel out) "epoch" i = epoch r ∧
  cell_at (relabel out) "raoff" i = only radec quant1 r ∧
  cell_at (relabel out) "raoff_err" i = only radec quant1_err r ∧
  cell_at (relabel out) "decoff" i = only radec quant2 r ∧
  cell_at (relabel out) "decoff_err" i = only radec quant2_err r ∧
  cell_at (relabel out) "sep" i = only seppa quant1 r ∧
  cell_at (relabel out) "sep_err" i = only seppa quant1_err r ∧
  cell_at (relabel out) "pa" i = only seppa quant2 r ∧
  cell_at (relabel out) "pa_err" i = only seppa quant2_err r ∧
  cell_at (relabel out) "rv" i = only rv quant1 r ∧
  cell_at (relabel out) "rv_err" i = only rv quant1_err r.
Proof.
  intros Hr.
  assert (∀ name (f : CanonicalRow → cell),
            columns (relabel out) !! name = Some (f <$> out) →
            cell_at (relabel out) name i = f r) as Hcol.
  { intros name f Hname. unfold cell_at.
    by rewrite Hname, list_lookup_fmap, Hr. }
  repeat split; by apply Hcol.
Qed.

Lemma relabel_lookups_ok (out : list CanonicalRow) (i : nat) :
  lookups_ok (relabel out) i.
Proof. unfold lookups_ok. repeat split; eexists; reflexivity. Qed.

Lemma fan_out_relabel (out : list CanonicalRow) (i : nat) (r : CanonicalRow) :
  out !! i = Some r → canonical r → is_JD (epoch r) = false →
  fan_out (relabel out) i = [r].
Proof.
  intros Hr (Hep & Hq1 & Hq2) Hmjd.
  destruct (cell_at_relabel out i r Hr)
    as (E0 & E1 & E2 & E3 & E4 & E5 & E6 & E7 & E8 & E9 & E10).
  rewrite fan_out_unfold. unfold has_radec, has_seppa, has_rv, row_of.
  rewrite E0, E1, E2, E3, E4, E5, E6, E7, E8, E9, E10.
  unfold to_MJD. rewrite Hmjd. unfold only.
  destruct r as [e q1 q1e q2 q2e []]; simpl in *.
  - destruct Hq1 as [? ->], Hq2 as [? ->]. reflexivity.
  - destruct Hq1 as [? ->], Hq2 as [? ->]. reflexivity.
  - destruct Hq1 as [? ->], Hq2 as [-> ->]. reflexivity.
Qed.

(** Re-normalizing a relabelled table whose epochs are all at or below
    the Julian-date threshold gives the table back. *)
Lemma relabel_fixed (out : list CanonicalRow) :
  Forall canonical out → Forall (λ r, is_JD (epoch r) = false) out →
  read_formatted_file (relabel out) = inr out.
Proof.
  intros Hcan Hmjd. apply read_formatted_file_inr. split; [| split].
  - exists (epoch <$> out). split; [reflexivity |].
    apply Forall_fmap. eapply Forall_impl; [exact Hcan |]. by intros r [? _].
  - apply Forall_forall. intros i _. apply relabel_lookups_ok.
  - symmetry. apply (concat_singletons _ out 0). intros i r Hr. simpl.
    rewrite Forall_forall in Hcan. rewrite Forall_forall in Hmjd.
    pose proof (list_elem_of_lookup_2 _ _ _ Hr) as Hin.
    apply fan_out_relabel; auto.
Qed.

(** ** The example tables, normalized *)

Example full_table_normalized : read_formatted_file full_table = inr full_output.
Proof. vm_compute. reflexivity. Qed.

Example full_table_well_formed : well_formed full_table.
Proof. apply (bool_decide_unpack (well_formed full_table)). vm_compute. exact I. Qed.

Example mixed_table_normalized :
  read_formatted_file mixed_table = inr mixed_output.
Proof. vm_compute. reflexivity. Qed.

Lemma epoch_table_well_formed : well_formed epoch_table.
Proof. apply (bool_decide_unpack (well_formed epoch_table)). vm_compute. exact I. Qed.

(** ** Classification and fan-out *)



(** ** Epoch normalization *)

(** C2. In a run that returns a table, every output row of an input row
    with epoch [e] has epoch [e - 2400000.5] when [e > 2400000.5] and [e]
    itself otherwise; so 2400000.5 stays 2400000.5, 2451545.0 becomes
    51544.5 and 51544.5 stays 51544.5. *)
Theorem epoch_is_MJD :
  (∀ t out, well_formed t → read_formatted_file t = inr out →
     ∃ groups : list (list CanonicalRow),
       length groups = len t ∧ out = concat groups ∧
       ∀ i g, groups !! i = Some g →
         emitted t i = inr g ∧
         ∃ e : float, cell_at t "epoch" i = Some e ∧
           ∀ r, r ∈ g →
             epoch r = Some (if PrimFloat.ltb 2400000.5 e
                             then PrimFloat.sub e 2400000.5 else e)) ∧
  to_MJD (Some 2400000.5%float) = Some 2400000.5%float ∧
  to_MJD (Some 2451545.0%float) = Some 51544.5%float ∧
  to_MJD (Some 51544.5%float) = Some 51544.5%float ∧
  read_formatted_file epoch_table = inr epoch_output.
Proof.
  split; [| by repeat split].
  intros t out Hwf Hrun.
  pose proof Hrun as (Hep & _)%read_formatted_file_inr.
  apply normalized_groups in Hrun as (groups & Hlen & -> & Hgroups).
  exists groups. split; [done |]. split; [done |].
  intros i g [Hi Hg]%Hgroups. split; [done |].
  destruct (epoch_cell t i Hwf Hep Hi) as [e He]. exists e. split; [done |].
  apply emitted_inr in Hg as [_ ->].
  intros r (q & _ & ->)%fan_out_elem.
  assert (epoch (row_of t i q) = to_MJD (cell_at t "epoch" i)) as ->
    by by destruct q.
  rewrite He. unfold to_MJD, is_JD, JD_OFFSET.
  by destruct (PrimFloat.ltb 2400000.5 e).
Qed.

Lemma epoch_is_MJD_witness :
  ∃ groups : list (list CanonicalRow),
    length groups = len epoch_table ∧ epoch_output = concat groups ∧
    ∀ i g, groups !! i = Some g →
      emitted epoch_table i = inr g ∧
      ∃ e : float, cell_at epoch_table "epoch" i = Some e ∧
        ∀ r, r ∈ g →
          epoch r = Some (if PrimFloat.ltb 2400000.5 e
                          then PrimFloat.sub e 2400000.5 else e).
Proof.
  apply (proj1 epoch_is_MJD epoch_table epoch_output).
  - apply (bool_decide_unpack (well_formed epoch_table)). vm_compute. exact I.
  - vm_compute. reflexivity.
Defined.

(** ** The two failures on the epoch column *)

(** C4. A table whose schema has no [epoch] column makes
    [read_formatted_file] fail with the missing-column error, whatever its
    rows hold: no output table is returned. *)
Theorem missing_epoch_column (t : Table) :
  columns t !! "epoch" = None →
  read_formatted_file t = inl MissingColumnError.
Proof. unfold read_formatted_file. by intros ->. Qed.

Lemma missing_epoch_column_witness :
  read_formatted_file no_epoch_table = inl MissingColumnError.
Proof. apply (missing_epoch_column no_epoch_table). vm_compute. reflexivity. Defined.



(** ** Absent error columns *)

(** C6 on the code. With the error columns present and blank the first
    row is emitted with null errors; with the error columns left out of the
    header the same row ends the run with [KeyError('raoff_err')]: an
    absent error column is not treated as a blank one. *)
Theorem absent_error_column_raises :
  read_formatted_file blank_err_radec_table =
    inr [mkRow (Some 51544.5%float) (Some 0.25%float) None
               (Some 0.75%float) None radec] ∧
  read_formatted_file bare_radec_table = inl (KeyError "raoff_err").
Proof. split; vm_compute; reflexivity. Qed.

(** C7 on the code. The [epoch] column of [bare_rv_table] is present and
    complete, and its header omits [sep] and [pa]; the run still ends with
    an exception, [KeyError('rv_err')]. *)
Theorem third_failure_condition :
  epoch_complete bare_rv_table ∧
  columns bare_rv_table !! "sep" = None ∧
  columns bare_rv_table !! "pa" = None ∧
  read_formatted_file bare_rv_table = inl (KeyError "rv_err").
Proof.
  split; [| by repeat split].
  exists [Some 51544.5; Some 51545.5]%float. split; [reflexivity |].
  repeat constructor; eauto.
Qed.

(** ** Re-normalizing a canonical table *)

(** C8, as the spec states it, fails: the Modified Julian date of an epoch
    beyond 4800001 is still above 2400000.5, so a second pass takes it for
    a Julian date and subtracts again. *)
Lemma renormalizing_shifts_far_epoch :
  read_formatted_file far_table = inr far_output ∧
  read_formatted_file (relabel far_output) = inr far_output_again ∧
  read_formatted_file (relabel far_output) ≠ inr far_output.
Proof.
  assert (read_formatted_file (relabel far_output) = inr far_output_again)
    as Hagain by (vm_compute; reflexivity).
  split; [vm_compute; reflexivity |]. split; [exact Hagain |].
  rewrite Hagain. intros Heq.
  apply (f_equal (λ res : result (list CanonicalRow),
                    match res with
                    | inr (r :: _) => is_JD (epoch r)
                    | _ => false
                    end)) in Heq.
  vm_compute in Heq. discriminate Heq.
Qed.

(** C8, amended. Relabelling the output of a run with the input names and
    normalizing it again gives the same canonical rows, provided no
    output epoch is itself greater than 2400000.5. *)
Theorem renormalize_relabelled (t : Table) (out : list CanonicalRow) :
  well_formed t → read_formatted_file t = inr out →
  Forall (λ r, is_JD (epoch r) = false) out →
  read_formatted_file (relabel out) = inr out.
Proof.
  intros Hwf Hrun Hmjd. apply relabel_fixed; [| done].
  by eapply normalized_canonical.
Qed.

Lemma renormalize_relabelled_witness :
  read_formatted_file (relabel mixed_output) = inr mixed_output.
Proof.
  apply (renormalize_relabelled mixed_table mixed_output).
  - apply (bool_decide_unpack (well_formed mixed_table)). vm_compute. exact I.
  - vm_compute. reflexivity.
  - repeat (apply Forall_cons; split; [vm_compute; reflexivity |]).
    apply Forall_nil. exact I.
Defined.

(** ** Row counts *)

(** C9, as the spec states it, fails: [sparse_table] has a row that yields
    two measurement types, yet its three input rows give two output
    rows. *)
Lemma multiple_types_fewer_rows :
  (∃ i, i < len sparse_table ∧ 2 ≤ num_types sparse_table i) ∧
  read_formatted_file sparse_table = inr sparse_output ∧
  ¬ (len sparse_table ≤ length sparse_output).
Proof.
  split; [| split].
  - exists 0. split; [simpl; lia | vm_compute; lia].
  - vm_compute. reflexivity.
  - simpl. lia.
Qed.

(** C9, amended. In a run that returns a table, the output has as many
    rows as the input rows yield measurement types in total: at least as
    many as the input when every input row yields a type (and more when
    one of them also yields several), while an input row that yields no
    type adds no row and raises nothing. *)
Theorem output_row_count (t : Table) (out : list CanonicalRow) :
  read_formatted_file t = inr out →
  length out = sum_list_with (num_types t) (seq 0 (len t)) ∧
  ((∀ i, i < len t → 1 ≤ num_types t i) → len t ≤ length out) ∧
  ((∀ i, i < len t → 1 ≤ num_types t i) →
   (∃ i, i < len t ∧ 2 ≤ num_types t i) → len t < length out) ∧
  (∀ i, i < len t → num_types t i = 0 → emitted t i = inr []).
Proof.
  intros Hrun. pose proof (output_length t out Hrun) as Hlen.
  assert (∀ P : nat → Prop,
            (∀ i, i < len t → P i) → Forall P (seq 0 (len t))) as Hseq.
  { intros P HP. apply Forall_forall. intros i Hi%elem_of_seq. apply HP. lia. }
  split; [done |]. split; [| split].
  - intros Hall.
    pose proof (sum_list_with_ge (num_types t) _ (Hseq _ Hall)) as Hge.
    rewrite length_seq in Hge. lia.
  - intros Hall (i & Hi & Hmany).
    assert (Exists (λ i, 2 ≤ num_types t i) (seq 0 (len t))) as Hex.
    { apply Exists_exists. exists i. split; [| done]. apply elem_of_seq. lia. }
    pose proof (sum_list_with_gt (num_types t) _ (Hseq _ Hall) Hex) as Hgt.
    rewrite length_seq in Hgt. lia.
  - intros i Hi (Hrd & Hsp & Hrv)%num_types_0.
    apply read_formatted_file_inr in Hrun as ((col & Hcol & _) & _ & _).
    apply emitted_inr. rewrite fan_out_none by done. split; [| done].
    unfold lookups_ok. rewrite Hcol, Hrd, Hsp, Hrv. by repeat split.
Qed.

Lemma output_row_count_witness :
  length mixed_output =
    sum_list_with (num_types mixed_table) (seq 0 (len mixed_table)) ∧
  len mixed_table ≤ length mixed_output ∧
  len mixed_table < length mixed_output.
Proof.
  destruct (output_row_count mixed_table mixed_output)
    as (Hsum & Hge & Hgt & _).
  - vm_compute. reflexivity.
  - assert (∀ i, i < len mixed_table → 1 ≤ num_types mixed_table i) as Hall.
    { intros [|[|[|i]]] Hi; [vm_compute; lia.. | simpl in Hi; lia]. }
    split; [exact Hsum |]. split; [exact (Hge Hall) |].
    apply (Hgt Hall). exists 0. split; [simpl; lia | vm_compute; lia].
Defined.

(** ** Output order *)

(** C10. In a run that returns a table, the output is the rows of input
    row 0, then those of input row 1, and so on: the rows of one input row
    are contiguous, those of row [i] come before those of row [j] when
    [i < j], and within one input row the order is [radec], [seppa],
    [rv]. *)
Theorem output_follows_input_order (t : Table) (out : list CanonicalRow) :
  read_formatted_file t = inr out →
  ∃ groups : list (list CanonicalRow),
    length groups = len t ∧ out = concat groups ∧
    (∀ i g, groups !! i = Some g →
       emitted t i = inr g ∧
       qtype <$> g = filter (λ q, satisfied t i q = true) [radec; seppa; rv] ∧
       out = concat (take i groups) ++ g ++ concat (drop (S i) groups)) ∧
    (∀ i j gi gj, i < j → groups !! i = Some gi → groups !! j = Some gj →
       out = concat (take i groups) ++ gi ++
             concat (take (j - S i) (drop (S i) groups)) ++ gj ++
             concat (drop (S j) groups)).
Proof.
  intros (groups & Hlen & -> & Hgroups)%normalized_groups.
  exists groups. split; [done |]. split; [done |]. split.
  - intros i g Hg. destruct (Hgroups i g Hg) as [_ Hem].
    split; [done |]. split; [| by apply concat_split_at].
    apply emitted_inr in Hem as [_ ->]. apply fan_out_types.
  - intros i j gi gj. apply concat_split_two.
Qed.

Lemma output_follows_input_order_witness :
  ∃ groups : list (list CanonicalRow),
    length groups = len mixed_table ∧ mixed_output = concat groups ∧
    (∀ i g, groups !! i = Some g →
       emitted mixed_table i = inr g ∧
       qtype <$> g =
         filter (λ q, satisfied mixed_table i q = true) [radec; seppa; rv] ∧
       mixed_output = concat (take i groups) ++ g ++ concat (drop (S i) groups)) ∧
    (∀ i j gi gj, i < j → groups !! i = Some gi → groups !! j = Some gj →
       mixed_output = concat (take i groups) ++ gi ++
             concat (take (j - S i) (drop (S i) groups)) ++ gj ++
             concat (drop (S j) groups)).
Proof.
  apply (output_follows_input_order mixed_table mixed_output).
  vm_compute. reflexivity.
Defined.

(** ** When the run returns *)

(** On a masked table with the five error columns in the header, the run
    fails exactly when the [epoch] column is missing or has a blank
    cell. *)
Lemma fails_iff_epoch_unusable (t : Table) :
  (∀ name, name ∈ error_columns → is_Some (columns t !! name)) →
  (∃ e, read_formatted_file t = inl e) ↔
  (columns t !! "epoch" = None ∨
   ∃ col, columns t !! "epoch" = Some col ∧ None ∈ col).
Proof.
  intros Herr. split.
  - intros [e He].
    destruct (columns t !! "epoch") as [col|] eqn:Hep; [right | by left].
    exists col. split; [done |]. apply forallb_present_false.
    destruct (forallb id (present <$> col)) eqn:Hall; [exfalso | done].
    assert (read_formatted_file t =
              inr (concat (fan_out t <$> seq 0 (len t)))) as Hrun.
    { apply read_formatted_file_inr. split; [| split; [| done]].
      - exists col. split; [done |]. by apply forallb_present.
      - apply Forall_forall. intros i _. unfold lookups_ok.
        rewrite Hep. unfold error_columns in Herr.
        repeat split; intros; [by eexists | apply Herr; set_solver ..]. }
    rewrite Hrun in He. discriminate He.
  - intros [Hno | (col & Hcol & Hnone)].
    + exists MissingColumnError. unfold read_formatted_file. by rewrite Hno.
    + exists IncompleteColumnError. unfold read_formatted_file.
      rewrite Hcol. simpl.
      by rewrite (proj2 (forallb_present_false col) Hnone).
Qed.


(** A header without [sep] or without [pa] suppresses the [seppa]
    classification of every row: no output row is a [seppa] row. *)
Theorem no_seppa_without_columns (t : Table) (out : list CanonicalRow) :
  columns t !! "sep" = None ∨ columns t !! "pa" = None →
  read_formatted_file t = inr out →
  Forall (λ r, qtype r ≠ seppa) out.
Proof.
  intros Hno (_ & _ & ->)%read_formatted_file_inr.
  apply Forall_concat, Forall_fmap, Forall_forall. intros i _.
  apply Forall_forall. intros r (q & Hq & ->)%fan_out_elem.
  destruct q; simpl; try discriminate.
  intros _. simpl in Hq. unfold has_seppa in Hq.
  apply andb_true_iff in Hq as [[c Hs]%present_column [c' Hp]%present_column].
  destruct Hno; congruence.
Qed.

Lemma no_seppa_without_columns_witness :
  Forall (λ r, qtype r ≠ seppa) epoch_output.
Proof.
  apply (no_seppa_without_columns epoch_table epoch_output).
  - left. vm_compute. reflexivity.
  - vm_compute. reflexivity.
Defined.

(** On a masked table, the run returns a table exactly when the [epoch]
    column is there with no blank cell and every input row finds, for each
    measurement set it satisfies, the error columns of that set in the
    header. *)
Lemma returns_iff_lookups_succeed (t : Table) :
  (∃ out, read_formatted_file t = inr out) ↔
  (∃ col, columns t !! "epoch" = Some col ∧ Forall is_Some col) ∧
  ∀ i, i < len t →
    (has_radec t i = true →
       is_Some (columns t !! "raoff_err") ∧
       is_Some (columns t !! "decoff_err")) ∧
    (has_seppa t i = true →
       is_Some (columns t !! "sep_err") ∧ is_Some (columns t !! "pa_err")) ∧
    (has_rv t i = true → is_Some (columns t !! "rv_err")).
Proof.
  split.
  - intros [out (Hep & Hoks & _)%read_formatted_file_inr].
    split; [exact Hep |]. intros i Hi.
    rewrite Forall_forall in Hoks.
    destruct (Hoks i) as (_ & Hrest); [apply elem_of_seq; lia | exact Hrest].
  - intros [Hep Hrows]. eexists. apply read_formatted_file_inr.
    split; [exact Hep |]. split; [| reflexivity].
    apply Forall_forall. intros i [_ Hi]%elem_of_seq. simpl in Hi.
    split; [| by apply Hrows].
    destruct Hep as (col & -> & _). by eexists.
Qed.

(** ** Which exception ends the run *)

Lemma absent_None (t : Table) (name : string) :
  absent t name = true ↔ columns t !! name = None.
Proof. unfold absent. by destruct (columns t !! name). Qed.

(** What the loop body does with one row, failures included: it raises
    the [KeyError] of the first error column it reads and does not find,
    and otherwise adds the row's [fan_out]. *)
Lemma loop_body_result (t : Table) (i : nat) (acc : list CanonicalRow) :
  is_Some (columns t !! "epoch") →
  loop_body t (flags_of t) i acc =
  match first_missing t i with
  | Some k => inl (KeyError k)
  | None => inr (acc ++ fan_out t i)
  end.
Proof.
  intros [ec Hec]. rewrite fan_out_unfold.
  unfold first_missing, error_reads, loop_body.
  cbn [flags_of have_ra have_dec have_sep have_pa have_rv].
  rewrite !nth_have. rewrite (getitem_Some _ _ _ _ Hec). cbn [bind].
  fold (has_radec t i) (has_seppa t i) (has_rv t i).
  assert (Hrd : has_radec t i = true →
                is_Some (columns t !! "raoff") ∧ is_Some (columns t !! "decoff")).
  { unfold has_radec. intros [? ?]%andb_true_iff. eauto using present_column. }
  assert (Hsp : has_seppa t i = true →
                is_Some (columns t !! "sep") ∧ is_Some (columns t !! "pa")).
  { unfold has_seppa. intros [? ?]%andb_true_iff. eauto using present_column. }
  assert (Hrv : has_rv t i = true → is_Some (columns t !! "rv")).
  { unfold has_rv. eauto using present_column. }
  unfold row_of, getitem, cell_at, absent, add_row, ret, raise in *.
  rewrite !filter_app, !Hec.
  destruct (has_radec t i);
    [destruct (Hrd eq_refl) as [[? ->] [? ->]] | ]; clear Hrd;
  (destruct (has_seppa t i);
    [destruct (Hsp eq_refl) as [[? ->] [? ->]] | ]; clear Hsp);
  (destruct (has_rv t i);
    [destruct (Hrv eq_refl) as [? ->] | ]; clear Hrv);
  rewrite ?filter_cons, ?filter_nil; cbn [bind app];
  repeat (match goal with
          | |- context [columns t !! ?n] =>
              destruct (columns t !! n) eqn:?; cbn
          end);
  rewrite ?app_nil_r, <- ?app_assoc; try reflexivity.
Qed.

Lemma for_each_result (t : Table) (indices : list nat)
    (acc : list CanonicalRow) :
  is_Some (columns t !! "epoch") →
  for_each (loop_body t (flags_of t)) indices acc =
  match head (omap (first_missing t) indices) with
  | Some k => inl (KeyError k)
  | None => inr (acc ++ concat (fan_out t <$> indices))
  end.
Proof.
  intros Hep. revert acc.
  induction indices as [|i rest IH]; intros acc; simpl.
  - by rewrite app_nil_r.
  - rewrite (loop_body_result t i acc Hep).
    destruct (first_missing t i) as [k|]; simpl; [done |].
    rewrite IH. by rewrite <- app_assoc.
Qed.

Lemma first_missing_error_column (t : Table) (i : nat) (k : string) :
  first_missing t i = Some k → k ∈ error_columns ∧ columns t !! k = None.
Proof.
  unfold first_missing. intros Hk%head_Some_elem_of.
  apply list_elem_of_filter in Hk as [Habs Hk]. apply absent_None in Habs.
  split; [| done]. unfold error_reads in Hk. unfold error_columns.
  destruct (has_radec t i), (has_seppa t i), (has_rv t i); simpl in Hk;
    repeat (apply elem_of_cons in Hk as [-> | Hk]; [repeat constructor |]);
    by apply elem_of_nil in Hk.
Qed.

Lemma first_key_error_row (t : Table) (k : string) :
  first_key_error t = Some k →
  ∃ i, i < len t ∧ first_missing t i = Some k.
Proof.
  unfold first_key_error. intros Hk%head_Some_elem_of.
  apply list_elem_of_omap in Hk as (i & [_ Hi]%elem_of_seq & Hk). eauto.
Qed.

(** On a masked table with a complete [epoch] column the run is decided
    by the error columns its rows read: it ends with the [KeyError] of the first one
    the header lacks, taking the rows in order and within a row the order
    [raoff_err], [decoff_err], [sep_err], [pa_err], [rv_err]; if none is
    missing it returns every row's fan-out. *)
Lemma run_with_complete_epoch (t : Table) :
  epoch_complete t →
  read_formatted_file t =
  match first_key_error t with
  | Some k => inl (KeyError k)
  | None => inr (concat (fan_out t <$> seq 0 (len t)))
  end.
Proof.
  intros (col & Hcol & Hall). unfold read_formatted_file, first_key_error.
  rewrite Hcol. cbn [bind ret].
  rewrite (proj2 (forallb_present col) Hall). cbn [negb].
  change (mkFlags _ _ _ _ _) with (flags_of t).
  rewrite for_each_result by eauto. by rewrite app_nil_l.
Qed.


(** The only exceptions the function ends with on a masked table: the
    missing-column error
    when the header has no [epoch], the incomplete-column error when an
    [epoch] cell is blank, and a [KeyError] naming an error column that the
    header lacks.  It never raises for an absent or blank quantity
    column. *)
Lemma exceptions_classified (t : Table) (e : exn) :
  read_formatted_file t = inl e →
  (e = MissingColumnError ∧ columns t !! "epoch" = None) ∨
  (e = IncompleteColumnError ∧
   ∃ col, columns t !! "epoch" = Some col ∧ None ∈ col) ∨
  (∃ k i, e = KeyError k ∧ k ∈ error_columns ∧ columns t !! k = None ∧
          i < len t ∧ k ∈ error_reads t i).
Proof.
  unfold read_formatted_file.
  destruct (columns t !! "epoch") as [col|] eqn:Hcol; cbn [bind ret raise].
  - destruct (forallb id (present <$> col)) eqn:Hall; cbn [negb].
    + change (mkFlags _ _ _ _ _) with (flags_of t).
      rewrite for_each_result by (rewrite Hcol; eauto).
      fold (first_key_error t).
      destruct (first_key_error t) as [k|] eqn:Hk; [| discriminate].
      intros [= <-]. right. right.
      apply first_key_error_row in Hk as (i & Hi & Hk).
      pose proof (first_missing_error_column t i k Hk) as [Hin Hnone].
      exists k, i. repeat split; try done.
      unfold first_missing in Hk. apply head_Some_elem_of in Hk.
      by apply list_elem_of_filter in Hk as [_ Hk].
    + intros [= <-]. right. left. split; [done |]. exists col.
      split; [done |]. by apply forallb_present_false.
  - intros [= <-]. by left.
Qed.


(** ** What the result depends on *)

Lemma for_each_ext {S : Type} (body body' : nat → S → result S)
    (indices : list nat) (s : S) :
  (∀ i s, body i s = body' i s) →
  for_each body indices s = for_each body' indices s.
Proof.
  intros Hext. revert s. induction indices as [|i rest IH]; intros s; simpl;
    [done |].
  rewrite Hext. destruct (body' i s); simpl; [done | apply IH].
Qed.

Lemma known_columns_inv (P : string → Prop) :
  (∀ name, name ∈ known_columns → P name) →
  P "epoch" ∧ P "raoff" ∧ P "raoff_err" ∧ P "decoff" ∧ P "decoff_err" ∧
  P "sep" ∧ P "sep_err" ∧ P "pa" ∧ P "pa_err" ∧ P "rv" ∧ P "rv_err".
Proof.
  intros HP. unfold known_columns in HP.
  repeat split; apply HP; repeat constructor.
Qed.

(** Two tables of the same length that agree on the eleven named columns
    give the same result. *)
Lemma read_formatted_file_ext (t t' : Table) :
  len t = len t' →
  (∀ name, name ∈ known_columns → columns t !! name = columns t' !! name) →
  read_formatted_file t = read_formatted_file t'.
Proof.
  intros Hlen Hcols.
  apply known_columns_inv in Hcols
    as (E0 & E1 & E2 & E3 & E4 & E5 & E6 & E7 & E8 & E9 & E10).
  unfold read_formatted_file, have.
  rewrite Hlen, E0, E1, E3, E5, E7, E9.
  destruct (columns t' !! "epoch") as [col|] eqn:E0';
    cbn [bind ret raise]; [| done].
  destruct (negb (forallb id (present <$> col))); [done |].
  apply for_each_ext. intros i s. unfold loop_body, getitem.
  by rewrite E0, E0', E1, E2, E3, E4, E5, E6, E7, E8, E9, E10.
Qed.

(** Columns under other names are ignored: adding one to the table, or
    taking one away, leaves the result as it is. *)
Theorem other_columns_ignored (t : Table) (name : string) (col : list cell) :
  name ∉ known_columns →
  read_formatted_file (mkTable (len t) (<[name := col]> (columns t))) =
    read_formatted_file t ∧
  read_formatted_file (mkTable (len t) (delete name (columns t))) =
    read_formatted_file t.
Proof.
  intros Hname. split; apply read_formatted_file_ext; try done; simpl;
    intros name' Hname'.
  - apply lookup_insert_ne. by intros ->.
  - apply lookup_delete_ne. by intros ->.
Qed.

Lemma other_columns_ignored_witness :
  read_formatted_file
    (mkTable (len mixed_table)
       (<["telescope" := [None; None; None]]> (columns mixed_table))) =
    read_formatted_file mixed_table ∧
  read_formatted_file
    (mkTable (len mixed_table) (delete "telescope" (columns mixed_table))) =
    read_formatted_file mixed_table.
Proof.
  apply (other_columns_ignored mixed_table "telescope" [None; None; None]).
  unfold known_columns. intros Hin.
  repeat (apply elem_of_cons in Hin as [Heq | Hin]; [discriminate Heq |]).
  by apply elem_of_nil in Hin.
Defined.

Lemma getitem_absent (t : Table) (i : nat) (name : string) :
  getitem t i name =
  if absent t name then inl (KeyError name) else inr (cell_at t name i).
Proof. unfold getitem, absent, cell_at. by destruct (columns t !! name). Qed.

(** What the loop body emits for a row, or raises at it, depends only on
    which of the eleven columns the header has and on the row's own cells:
    rows with the same cells under headers with the same columns are
    treated alike, wherever they stand and whatever the other rows hold. *)
Theorem emitted_depends_on_row_only (t t' : Table) (i j : nat) :
  (∀ name, name ∈ known_columns → absent t name = absent t' name) →
  (∀ name, name ∈ known_columns → cell_at t name i = cell_at t' name j) →
  emitted t i = emitted t' j.
Proof.
  intros Habs Hcell.
  apply known_columns_inv in Habs
    as (A0 & A1 & A2 & A3 & A4 & A5 & A6 & A7 & A8 & A9 & A10).
  apply known_columns_inv in Hcell
    as (E0 & E1 & E2 & E3 & E4 & E5 & E6 & E7 & E8 & E9 & E10).
  unfold emitted, loop_body.
  cbn [flags_of have_ra have_dec have_sep have_pa have_rv].
  rewrite !nth_have, !getitem_absent.
  by rewrite A0, A1, A2, A3, A4, A5, A6, A7, A8, A9, A10,
             E0, E1, E2, E3, E4, E5, E6, E7, E8, E9, E10.
Qed.

Lemma emitted_depends_on_row_only_witness :
  emitted mixed_table 0 = emitted first_row_table 0.
Proof.
  apply (emitted_depends_on_row_only mixed_table first_row_table 0 0).
  - intros name Hname. unfold known_columns in Hname.
    repeat (apply elem_of_cons in Hname as [-> | Hname];
            [vm_compute; reflexivity |]).
    by apply elem_of_nil in Hname.
  - intros name Hname. unfold known_columns in Hname.
    repeat (apply elem_of_cons in Hname as [-> | Hname];
            [vm_compute; reflexivity |]).
    by apply elem_of_nil in Hname.
Defined.

(** ** Error cells reach error entries only *)

Lemma filter_bool_ext {A} (f g : A → bool) (l : list A) :
  (∀ x, x ∈ l → f x = g x) →
  filter (λ x, f x = true) l = filter (λ x, g x = true) l.
Proof.
  induction l as [|a l IH]; intros Hfg; [done |].
  rewrite !filter_cons.
  rewrite IH by (intros x Hx; apply Hfg; by constructor).
  pose proof (Hfg a (list_elem_of_here a l)) as Ha.
  destruct (f a), (g a); try discriminate Ha; reflexivity.
Qed.

Section error_cells.
Variables t t' : Table.
Hypothesis same_length : len t = len t'.
Hypothesis same_quantities :
  ∀ name, name ∈ primary_columns → columns t !! name = columns t' !! name.
Hypothesis same_error_header :
  ∀ name, name ∈ error_columns → absent t name = absent t' name.

Lemma same_cell (name : string) (i : nat) :
  name ∈ primary_columns → cell_at t name i = cell_at t' name i.
Proof. intros Hname. unfold cell_at. by rewrite same_quantities. Qed.

Lemma same_conditions (i : nat) :
  has_radec t i = has_radec t' i ∧ has_seppa t i = has_seppa t' i ∧
  has_rv t i = has_rv t' i.
Proof.
  unfold has_radec, has_seppa, has_rv.
  rewrite !(same_cell _ i) by (unfold primary_columns; repeat constructor).
  done.
Qed.

Lemma same_first_missing (i : nat) : first_missing t i = first_missing t' i.
Proof.
  unfold first_missing, error_reads.
  destruct (same_conditions i) as (-> & -> & ->). f_equal.
  apply filter_bool_ext. intros name Hname. apply same_error_header.
  unfold error_columns.
  destruct (has_radec t' i), (has_seppa t' i), (has_rv t' i); simpl in Hname;
    repeat (apply elem_of_cons in Hname as [-> | Hname];
            [repeat constructor |]);
    by apply elem_of_nil in Hname.
Qed.

Lemma same_fan_out (i : nat) :
  erase_errors <$> fan_out t i = erase_errors <$> fan_out t' i.
Proof.
  rewrite !fan_out_unfold. destruct (same_conditions i) as (-> & -> & ->).
  unfold row_of, erase_errors.
  destruct (has_radec t' i), (has_seppa t' i), (has_rv t' i); cbn;
    rewrite ?(same_cell "epoch" i), ?(same_cell "raoff" i),
            ?(same_cell "decoff" i), ?(same_cell "sep" i),
            ?(same_cell "pa" i), ?(same_cell "rv" i)
      by (unfold primary_columns; repeat constructor);
    reflexivity.
Qed.

Lemma same_rows (indices : list nat) :
  erase_errors <$> concat (fan_out t <$> indices) =
  erase_errors <$> concat (fan_out t' <$> indices).
Proof.
  induction indices as [|i rest IH]; [done |].
  rewrite !fmap_cons, !concat_cons, !fmap_app. by rewrite same_fan_out, IH.
Qed.

(** The cells of the error columns reach the error entries of the output
    and nothing else: two tables with the same quantity columns and the
    same error columns in their headers end with the same exception, or
    return tables that differ in [quant1_err] and [quant2_err] at most. *)
Theorem error_cells_reach_error_entries_only :
  erase_result (read_formatted_file t) =
  erase_result (read_formatted_file t').
Proof.
  unfold read_formatted_file.
  rewrite <- (same_quantities "epoch")
    by (unfold primary_columns; repeat constructor).
  destruct (columns t !! "epoch") as [col|] eqn:Hcol;
    cbn [bind ret raise]; [| done].
  destruct (negb (forallb id (present <$> col))); [done |].
  change (mkFlags (have t "raoff") _ _ _ _) with (flags_of t).
  change (mkFlags (have t' "raoff") _ _ _ _) with (flags_of t').
  assert (columns t' !! "epoch" = Some col) as Hcol'.
  { rewrite <- Hcol. symmetry. apply same_quantities.
    unfold primary_columns. repeat constructor. }
  rewrite !for_each_result by (rewrite ?Hcol, ?Hcol'; eauto).
  rewrite <- same_length.
  assert (omap (first_missing t) (seq 0 (len t)) =
          omap (first_missing t') (seq 0 (len t))) as <-.
  { apply list_omap_ext, Forall2_same_length_lookup. split; [done |].
    intros i x y Hx Hy. rewrite Hx in Hy. injection Hy as <-.
    apply same_first_missing. }
  destruct (head (omap (first_missing t) (seq 0 (len t)))); simpl; [done |].
  by rewrite same_rows.
Qed.

End error_cells.

Lemma error_cells_reach_error_entries_only_witness :
  erase_result (read_formatted_file mixed_table) =
  erase_result (read_formatted_file other_errors_table).
Proof.
  apply (error_cells_reach_error_entries_only mixed_table other_errors_table).
  - reflexivity.
  - intros name Hname. unfold primary_columns in Hname.
    repeat (apply elem_of_cons in Hname as [-> | Hname];
            [vm_compute; reflexivity |]).
    by apply elem_of_nil in Hname.
  - intros name Hname. unfold error_columns in Hname.
    repeat (apply elem_of_cons in Hname as [-> | Hname];
            [vm_compute; reflexivity |]).
    by apply elem_of_nil in Hname.
Defined.

(** ** The output as a whole *)

Lemma elem_of_concat_fmap {A B} (f : A → list B) (l : list A) (b : B) :
  b ∈ concat (f <$> l) ↔ ∃ a, a ∈ l ∧ b ∈ f a.
Proof.
  induction l as [|a l IH].
  - split; [by intros ?%elem_of_nil | by intros (a & ?%elem_of_nil & _)].
  - rewrite fmap_cons, concat_cons, elem_of_app, IH. split.
    + intros [Hb | (a' & Ha' & Hb)].
      * exists a. split; [by constructor | done].
      * exists a'. split; [by constructor | done].
    + intros (a' & [-> | Ha']%elem_of_cons & Hb); eauto.
Qed.

Lemma count_concat_fmap {A B} (P : B → Prop) `{!∀ b, Decision (P b)}
    (f : A → list B) (l : list A) :
  length (filter P (concat (f <$> l))) =
  sum_list_with (λ a, length (filter P (f a))) l.
Proof.
  induction l as [|a l IH]; [done |].
  rewrite fmap_cons, concat_cons, filter_app, length_app, IH. reflexivity.
Qed.

(** The rows of a returned table are exactly the rows of the satisfied
    measurement sets of the input rows: nothing else appears in the output
    and none of them is left out. *)
Theorem output_rows_characterized (t : Table) (out : list CanonicalRow)
    (r : CanonicalRow) :
  read_formatted_file t = inr out →
  r ∈ out ↔ ∃ i q, i < len t ∧ satisfied t i q = true ∧ r = row_of t i q.
Proof.
  intros (_ & _ & ->)%read_formatted_file_inr.
  rewrite elem_of_concat_fmap. split.
  - intros (i & [_ Hi]%elem_of_seq & (q & Hq & ->)%fan_out_elem).
    exists i, q. simpl in Hi. done.
  - intros (i & q & Hi & Hq & ->). exists i. split.
    + apply elem_of_seq. lia.
    + unfold fan_out. apply list_elem_of_fmap. exists q. split; [done |].
      apply list_elem_of_filter. split; [done |].
      destruct q; repeat constructor.
Qed.

Lemma output_rows_characterized_witness :
  mkRow (Some 51545.5%float) (Some 1.5%float) (Some 0.125%float)
        (Some 30.0%float) (Some 2.0%float) seppa ∈ mixed_output ↔
  ∃ i q, i < len mixed_table ∧ satisfied mixed_table i q = true ∧
         mkRow (Some 51545.5%float) (Some 1.5%float) (Some 0.125%float)
               (Some 30.0%float) (Some 2.0%float) seppa =
         row_of mixed_table i q.
Proof.
  apply (output_rows_characterized mixed_table mixed_output).
  vm_compute. reflexivity.
Defined.

(** A returned table has, of each measurement type, as many rows as there
    are input rows that satisfy the type's condition. *)
Theorem rows_of_each_type (t : Table) (out : list CanonicalRow)
    (q : quant_type) :
  read_formatted_file t = inr out →
  length (filter (λ r, qtype r = q) out) =
  length (filter (λ i, satisfied t i q = true) (seq 0 (len t))).
Proof.
  intros (_ & _ & ->)%read_formatted_file_inr.
  rewrite count_concat_fmap.
  induction (seq 0 (len t)) as [|i rest IH]; [done |].
  cbn [sum_list_with]. rewrite IH, fan_out_count, filter_cons.
  destruct (satisfied t i q) eqn:Hq.
  - rewrite decide_True by done. reflexivity.
  - rewrite decide_False by discriminate. reflexivity.
Qed.

Lemma rows_of_each_type_witness :
  length (filter (λ r, qtype r = radec) mixed_output) =
  length (filter (λ i, satisfied mixed_table i radec = true)
                 (seq 0 (len mixed_table))).
Proof.
  apply (rows_of_each_type mixed_table mixed_output radec).
  vm_compute. reflexivity.
Defined.

(** A returned table has at most three rows per input row. *)
Theorem output_at_most_threefold (t : Table) (out : list CanonicalRow) :
  read_formatted_file t = inr out → length out ≤ 3 * len t.
Proof.
  intros Hrun. rewrite (output_length t out Hrun).
  assert (∀ l, sum_list_with (num_types t) l ≤ 3 * length l) as Hsum.
  { induction l as [|i l IH]; simpl; [lia |].
    pose proof (num_types_le t i). lia. }
  specialize (Hsum (seq 0 (len t))). by rewrite length_seq in Hsum.
Qed.

Lemma output_at_most_threefold_witness :
  length mixed_output ≤ 3 * len mixed_table.
Proof.
  apply (output_at_most_threefold mixed_table mixed_output).
  vm_compute. reflexivity.
Defined.

Lemma sum_list_with_0 (f : nat → nat) (l : list nat) :
  sum_list_with f l = 0 ↔ Forall (λ i, f i = 0) l.
Proof.
  induction l as [|i l IH]; simpl.
  - split; auto.
  - rewrite Forall_cons, <- IH. lia.
Qed.

(** On a masked table with a complete [epoch] column, the run returns the
    empty table
    exactly when no input row satisfies any of the three conditions; then
    no error column is looked up, so none is missed.  An input without
    rows and a header with [epoch] alone are such tables. *)
Lemma empty_output_iff (t : Table) :
  epoch_complete t →
  read_formatted_file t = inr [] ↔ ∀ i, i < len t → num_types t i = 0.
Proof.
  intros Hep. split.
  - intros Hrun i Hi. pose proof (output_length t [] Hrun) as Hsum.
    symmetry in Hsum. simpl in Hsum. apply sum_list_with_0 in Hsum.
    rewrite Forall_forall in Hsum. apply Hsum, elem_of_seq. lia.
  - intros Hnone. apply read_formatted_file_inr. split; [done |].
    assert (Forall (λ i, num_types t i = 0) (seq 0 (len t))) as Hall.
    { apply Forall_forall. intros i [_ Hi]%elem_of_seq. by apply Hnone. }
    split.
    + eapply Forall_impl; [exact Hall |]. intros i (Hrd & Hsp & Hrv)%num_types_0.
      unfold lookups_ok. rewrite Hrd, Hsp, Hrv.
      destruct Hep as (col & -> & _). by repeat split.
    + symmetry. apply nil_length_inv. rewrite length_concat_fmap.
      apply sum_list_with_0. eapply Forall_impl; [exact Hall |].
      intros i Hi. simpl. by rewrite fan_out_length.
Qed.


(** ** Plain and masked columns *)

Lemma as_table_lookup (t : ReadTable) (name : string) :
  columns (as_table t) !! name = cells_of <$> read_columns t !! name.
Proof. unfold as_table. simpl. apply lookup_fmap. Qed.

(** The function on a reader's table: without [epoch] the missing-column
    error; with a plain column among the quantity columns the
    [AttributeError] of its [mask]; otherwise the function on the masked
    table of the same rows. *)
Lemma read_formatted_file_from_spec (t : ReadTable) :
  read_formatted_file_from t =
  match read_columns t !! "epoch" with
  | None => inl MissingColumnError
  | Some _ =>
      if existsb (plain t) primary_columns
      then inl (AttributeError "mask")
      else read_formatted_file (as_table t)
  end.
Proof.
  unfold read_formatted_file_from, read_formatted_file, have_from, have,
    primary_columns.
  cbn [existsb]. unfold plain. rewrite !as_table_lookup.
  destruct (read_columns t !! "epoch") as [[?|?]|]; cbn; try reflexivity.
  repeat (match goal with
          | |- context [read_columns t !! ?n] =>
              destruct (read_columns t !! n) as [[?|?]|]; cbn;
              try reflexivity
          end).
Qed.

(** ** The stored table *)

Lemma fmap_concat {A B} (f : A → B) (l : list (list A)) :
  f <$> concat l = concat ((λ g : list A, f <$> g) <$> l).
Proof.
  induction l as [|g l IH]; [done |].
  by rewrite concat_cons, fmap_app, IH, fmap_cons, concat_cons.
Qed.

(** The stored table is the stored rows of input row 0, then those of
    input row 1, and so on. *)
Lemma stored_groups (t : Table) (out : list StoredRow) :
  stored_table t = inr out →
  ∃ groups : list (list StoredRow),
    length groups = len t ∧ out = concat groups ∧
    ∀ i g, groups !! i = Some g →
      i < len t ∧ emitted_stored t i = inr g ∧ g = store <$> fan_out t i.
Proof.
  unfold stored_table.
  destruct (read_formatted_file t) as [e|out0] eqn:Hrun; [discriminate |].
  intros [= <-].
  apply normalized_groups in Hrun as (groups & Hlen & -> & Hgroups).
  exists ((λ g : list CanonicalRow, store <$> g) <$> groups).
  split; [by rewrite length_fmap |]. split; [apply fmap_concat |].
  intros i g (g0 & -> & Hg0)%list_lookup_fmap_Some.
  destruct (Hgroups i g0 Hg0) as [Hi Hem]. split; [done |].
  unfold emitted_stored. rewrite Hem.
  apply emitted_inr in Hem as [_ ->]. done.
Qed.

Lemma store_cell_Some (c : cell) (x : float) : c = Some x → store_cell c = x.
Proof. by intros ->. Qed.

(** C3, as the spec states it, fails: the first row of [full_table] has
    both offsets and a blank [decoff_err], and its [radec] row in the
    output table has the number 0.0 for [quant2_err], not a null. *)
Lemma blank_error_stored_as_zero :
  cell_at full_table "raoff" 0 = Some 0.25%float ∧
  cell_at full_table "decoff" 0 = Some 0.75%float ∧
  cell_at full_table "decoff_err" 0 = None ∧
  stored_table full_table = inr full_stored ∧
  filter (λ s, s_type s = radec) full_stored =
    [mkStored 51544.5 0.25 0.0625 0.75 0 radec]%float.
Proof. repeat split; vm_compute; reflexivity. Qed.

(** C3, amended. In a run that returns a table, an input row with both
    [raoff] and [decoff] present has exactly one [radec] row among the rows
    stored for it; its [quant1] is the row's [raoff] and its [quant2] the
    row's [decoff], and its [quant1_err] and [quant2_err] are the row's
    [raoff_err] and [decoff_err] where these are present.  An input row
    with [raoff] present and [decoff] absent has no [radec] row. *)
Theorem radec_row_stored (t : Table) (out : list StoredRow) :
  stored_table t = inr out →
  ∃ groups : list (list StoredRow),
    length groups = len t ∧ out = concat groups ∧
    ∀ i g, groups !! i = Some g →
      emitted_stored t i = inr g ∧
      (∀ ra dec,
         cell_at t "raoff" i = Some ra → cell_at t "decoff" i = Some dec →
         ∃ s, filter (λ s, s_type s = radec) g = [s] ∧
              s_epoch s = store_cell (to_MJD (cell_at t "epoch" i)) ∧
              s_quant1 s = ra ∧ s_quant2 s = dec ∧
              (∀ e, cell_at t "raoff_err" i = Some e → s_quant1_err s = e) ∧
              (∀ e, cell_at t "decoff_err" i = Some e → s_quant2_err s = e)) ∧
      (present (cell_at t "raoff" i) = true →
       present (cell_at t "decoff" i) = false →
       filter (λ s, s_type s = radec) g = []).
Proof.
  intros (groups & Hlen & -> & Hgroups)%stored_groups.
  exists groups. split; [done |]. split; [done |].
  intros i g (_ & Hem & ->)%Hgroups. split; [done |].
  rewrite fan_out_unfold. unfold has_radec. split.
  - intros ra dec Hra Hdec. rewrite Hra, Hdec. simpl.
    exists (store (row_of t i radec)). split.
    + by destruct (has_seppa t i), (has_rv t i).
    + simpl. rewrite Hra, Hdec. simpl.
      repeat split; try done; intros e ->; done.
  - intros -> ->. simpl. by destruct (has_seppa t i), (has_rv t i).
Qed.

Lemma radec_row_stored_witness :
  ∃ groups : list (list StoredRow),
    length groups = len full_table ∧ full_stored = concat groups ∧
    ∀ i g, groups !! i = Some g →
      emitted_stored full_table i = inr g ∧
      (∀ ra dec,
         cell_at full_table "raoff" i = Some ra →
         cell_at full_table "decoff" i = Some dec →
         ∃ s, filter (λ s, s_type s = radec) g = [s] ∧
              s_epoch s = store_cell (to_MJD (cell_at full_table "epoch" i)) ∧
              s_quant1 s = ra ∧ s_quant2 s = dec ∧
              (∀ e, cell_at full_table "raoff_err" i = Some e →
                    s_quant1_err s = e) ∧
              (∀ e, cell_at full_table "decoff_err" i = Some e →
                    s_quant2_err s = e)) ∧
      (present (cell_at full_table "raoff" i) = true →
       present (cell_at full_table "decoff" i) = false →
       filter (λ s, s_type s = radec) g = []).
Proof.
  apply (radec_row_stored full_table full_stored).
  vm_compute. reflexivity.
Defined.

Lemma to_MJD_Some (e : float) : to_MJD (Some e) = Some (MJD_of e).
Proof. unfold to_MJD, MJD_of, is_JD. by destruct (PrimFloat.ltb JD_OFFSET e). Qed.

Lemma present_Some (c : cell) : present c = true → ∃ x, c = Some x.
Proof. destruct c; [eauto | discriminate]. Qed.

(** The epochs and quantities of the table returned for a well-formed
    input are values of the input: every stored row comes from an input
    row whose epoch it carries in MJD and whose [raoff] and [decoff], [sep]
    and [pa], or [rv] it carries as [quant1] and [quant2]; an [rv] row has
    nan for [quant2] and [quant2_err].  So the 0.0 that stands in for a
    blank cell is found in [quant1_err] and [quant2_err] only. *)
Theorem stored_quantities_are_input_values (t : Table)
    (out : list StoredRow) :
  well_formed t → stored_table t = inr out →
  Forall (λ s, ∃ i e, i < len t ∧ cell_at t "epoch" i = Some e ∧
                 s_epoch s = MJD_of e ∧
                 match s_type s with
                 | radec => ∃ x y, cell_at t "raoff" i = Some x ∧
                                   cell_at t "decoff" i = Some y ∧
                                   s_quant1 s = x ∧ s_quant2 s = y
                 | seppa => ∃ x y, cell_at t "sep" i = Some x ∧
                                   cell_at t "pa" i = Some y ∧
                                   s_quant1 s = x ∧ s_quant2 s = y
                 | rv => ∃ x, cell_at t "rv" i = Some x ∧ s_quant1 s = x ∧
                              s_quant2 s = PrimFloat.nan ∧
                              s_quant2_err s = PrimFloat.nan
                 end) out.
Proof.
  intros Hwf. unfold stored_table.
  destruct (read_formatted_file t) as [?|out0] eqn:Hrun; [discriminate |].
  intros [= <-].
  apply read_formatted_file_inr in Hrun as (Hep & _ & ->).
  apply Forall_fmap, Forall_concat, Forall_fmap, Forall_forall.
  intros i [_ Hi]%elem_of_seq. simpl in Hi.
  apply Forall_forall. intros r (q & Hq & ->)%fan_out_elem.
  destruct (epoch_cell t i Hwf Hep Hi) as [e He].
  exists i, e. split; [done |]. split; [done |].
  destruct q; simpl in Hq |- *; rewrite He, to_MJD_Some; (split; [done |]).
  - unfold has_radec in Hq.
    apply andb_true_iff in Hq as [[x Hx]%present_Some [y Hy]%present_Some].
    exists x, y. by rewrite Hx, Hy.
  - unfold has_seppa in Hq.
    apply andb_true_iff in Hq as [[x Hx]%present_Some [y Hy]%present_Some].
    exists x, y. by rewrite Hx, Hy.
  - unfold has_rv in Hq. apply present_Some in Hq as [x Hx].
    exists x. by rewrite Hx.
Qed.

Lemma stored_quantities_are_input_values_witness :
  Forall (λ s, ∃ i e, i < len full_table ∧
                 cell_at full_table "epoch" i = Some e ∧
                 s_epoch s = MJD_of e ∧
                 match s_type s with
                 | radec => ∃ x y, cell_at full_table "raoff" i = Some x ∧
                                   cell_at full_table "decoff" i = Some y ∧
                                   s_quant1 s = x ∧ s_quant2 s = y
                 | seppa => ∃ x y, cell_at full_table "sep" i = Some x ∧
                                   cell_at full_table "pa" i = Some y ∧
                                   s_quant1 s = x ∧ s_quant2 s = y
                 | rv => ∃ x, cell_at full_table "rv" i = Some x ∧
                              s_quant1 s = x ∧
                              s_quant2 s = PrimFloat.nan ∧
                              s_quant2_err s = PrimFloat.nan
                 end) full_stored.
Proof.
  apply (stored_quantities_are_input_values full_table full_stored).
  - apply (bool_decide_unpack (well_formed full_table)). vm_compute. exact I.
  - vm_compute. reflexivity.
Defined.

(** ** The function on a reader's table *)

Lemma existsb_false_iff {A} (f : A → bool) (l : list A) :
  existsb f l = false ↔ ∀ x, x ∈ l → f x = false.
Proof.
  induction l as [|a l IH]; simpl.
  - split; [by intros _ x ?%elem_of_nil | done].
  - rewrite orb_false_iff, IH. split.
    + intros [Ha Hl] x [-> | Hx]%elem_of_cons; auto.
    + intros Hall. split; [apply Hall; by constructor |].
      intros x Hx. apply Hall. by constructor.
Qed.

Lemma existsb_true_iff {A} (f : A → bool) (l : list A) :
  existsb f l = true ↔ ∃ x, x ∈ l ∧ f x = true.
Proof.
  induction l as [|a l IH]; simpl.
  - split; [discriminate | by intros (x & ?%elem_of_nil & _)].
  - rewrite orb_true_iff, IH. split.
    + intros [Ha | (x & Hx & Hfx)].
      * exists a. split; [by constructor | done].
      * exists x. split; [by constructor | done].
    + intros (x & [-> | Hx]%elem_of_cons & Hfx); eauto.
Qed.

Lemma as_table_None (t : ReadTable) (name : string) :
  columns (as_table t) !! name = None ↔ read_columns t !! name = None.
Proof. rewrite as_table_lookup. apply fmap_None. Qed.

Lemma as_table_is_Some (t : ReadTable) (name : string) :
  is_Some (columns (as_table t) !! name) ↔ is_Some (read_columns t !! name).
Proof. rewrite as_table_lookup. apply fmap_is_Some. Qed.

Lemma as_table_masked (t : ReadTable) (name : string) (col : list cell) :
  plain t name = false →
  columns (as_table t) !! name = Some col ↔
  read_columns t !! name = Some (MaskedColumn col).
Proof.
  rewrite as_table_lookup. unfold plain.
  destruct (read_columns t !! name) as [[data|cells]|]; simpl;
    try discriminate; intros _; split; intros [=]; by subst.
Qed.

Lemma epoch_is_primary : "epoch" ∈ primary_columns.
Proof. unfold primary_columns. by constructor. Qed.



(** The only exceptions the function ends with, on any table of the
    reader: the missing-column error when the header has no [epoch]; the
    [AttributeError] of [mask] when one of the quantity columns is a plain
    column; the incomplete-column error when an [epoch] cell is blank; and
    a [KeyError] naming an error column that the header lacks and some row
    reads.  It never raises for an absent or blank quantity column. *)
Theorem reader_table_exceptions (t : ReadTable) (e : exn) :
  read_formatted_file_from t = inl e →
  (e = MissingColumnError ∧ read_columns t !! "epoch" = None) ∨
  (e = AttributeError "mask" ∧
   ∃ name, name ∈ primary_columns ∧ plain t name = true) ∨
  (e = IncompleteColumnError ∧
   ∃ cells, read_columns t !! "epoch" = Some (MaskedColumn cells) ∧
            None ∈ cells) ∨
  (∃ k i, e = KeyError k ∧ k ∈ error_columns ∧ read_columns t !! k = None ∧
          i < read_len t ∧ k ∈ error_reads (as_table t) i).
Proof.
  rewrite read_formatted_file_from_spec.
  destruct (read_columns t !! "epoch") as [c|] eqn:Hep;
    [| intros [= <-]; by left].
  destruct (existsb (plain t) primary_columns) eqn:Hplain.
  { intros [= <-]. right. left. split; [done |].
    by apply existsb_true_iff. }
  pose proof (proj1 (existsb_false_iff _ _) Hplain) as Hmasked.
  intros [[-> Hnone] | [[-> (col & Hcol & Hin)] | (k & i & -> & ? & Hk & ? & ?)]]
    %exceptions_classified.
  - apply as_table_None in Hnone. congruence.
  - right. right. left. split; [done |]. exists col. split; [| done].
    rewrite <- Hep.
    apply as_table_masked; [apply Hmasked, epoch_is_primary | done].
  - right. right. right. exists k, i. apply as_table_None in Hk. done.
Qed.

Lemma reader_table_exceptions_witness :
  (AttributeError "mask" = MissingColumnError ∧
   read_columns plain_read_table !! "epoch" = None) ∨
  (AttributeError "mask" = AttributeError "mask" ∧
   ∃ name, name ∈ primary_columns ∧ plain plain_read_table name = true) ∨
  (AttributeError "mask" = IncompleteColumnError ∧
   ∃ cells, read_columns plain_read_table !! "epoch" =
              Some (MaskedColumn cells) ∧ None ∈ cells) ∨
  (∃ k i, AttributeError "mask" = KeyError k ∧ k ∈ error_columns ∧
          read_columns plain_read_table !! k = None ∧
          i < read_len plain_read_table ∧
          k ∈ error_reads (as_table plain_read_table) i).
Proof.
  apply (reader_table_exceptions plain_read_table (AttributeError "mask")).
  vm_compute. reflexivity.
Defined.

Lemma read_formatted_file_from_inr (t : ReadTable)
    (out : list CanonicalRow) :
  read_formatted_file_from t = inr out ↔
  (∀ name, name ∈ primary_columns → plain t name = false) ∧
  read_formatted_file (as_table t) = inr out.
Proof.
  rewrite read_formatted_file_from_spec, <- existsb_false_iff.
  destruct (read_columns t !! "epoch") eqn:Hep.
  - destruct (existsb (plain t) primary_columns); split;
      try discriminate; try (by intros [? ?]); auto.
  - apply as_table_None in Hep. unfold read_formatted_file. rewrite Hep.
    split; [discriminate | by intros [_ ?]].
Qed.

Lemma masked_epoch_complete (t : ReadTable) :
  plain t "epoch" = false →
  epoch_complete (as_table t) ↔
  ∃ cells, read_columns t !! "epoch" = Some (MaskedColumn cells) ∧
           Forall is_Some cells.
Proof.
  intros Hmasked. unfold epoch_complete.
  split; intros (col & Hcol & Hall); exists col; split; try done;
    by apply (as_table_masked t "epoch" col Hmasked).
Qed.

(** On any table of the reader, the run returns a table exactly when the
    [epoch] column is a masked column with no blank cell, none of the
    other quantity columns in the header is a plain column, and every
    input row finds, for each measurement set it satisfies, the error
    columns of that set in the header. *)
Theorem reader_table_returns_iff (t : ReadTable) :
  (∃ out, read_formatted_file_from t = inr out) ↔
  (∃ cells, read_columns t !! "epoch" = Some (MaskedColumn cells) ∧
            Forall is_Some cells) ∧
  (∀ name, name ∈ primary_columns → plain t name = false) ∧
  ∀ i, i < read_len t →
    (has_radec (as_table t) i = true →
       is_Some (read_columns t !! "raoff_err") ∧
       is_Some (read_columns t !! "decoff_err")) ∧
    (has_seppa (as_table t) i = true →
       is_Some (read_columns t !! "sep_err") ∧
       is_Some (read_columns t !! "pa_err")) ∧
    (has_rv (as_table t) i = true → is_Some (read_columns t !! "rv_err")).
Proof.
  split.
  - intros [out [Hmasked Hrun]%read_formatted_file_from_inr].
    assert (∃ out, read_formatted_file (as_table t) = inr out) as Hex by eauto.
    apply returns_iff_lookups_succeed in Hex as [Hep Hrows].
    split; [by apply masked_epoch_complete; [apply Hmasked, epoch_is_primary |] |].
    split; [done |]. intros i Hi.
    specialize (Hrows i Hi). rewrite !as_table_is_Some in Hrows. exact Hrows.
  - intros (Hep & Hmasked & Hrows).
    assert (∃ out, read_formatted_file (as_table t) = inr out) as [out Hrun].
    { apply returns_iff_lookups_succeed. split.
      - by apply masked_epoch_complete; [apply Hmasked, epoch_is_primary |].
      - intros i Hi. rewrite !as_table_is_Some. by apply Hrows. }
    exists out. by apply read_formatted_file_from_inr.
Qed.

(** On any table of the reader that has the five error columns in its
    header, the run fails exactly when the [epoch] column is missing, one
    of the quantity columns is a plain column, or an [epoch] cell is
    blank. *)
Theorem reader_table_fails_iff (t : ReadTable) :
  (∀ name, name ∈ error_columns → is_Some (read_columns t !! name)) →
  (∃ e, read_formatted_file_from t = inl e) ↔
  (read_columns t !! "epoch" = None ∨
   (∃ name, name ∈ primary_columns ∧ plain t name = true) ∨
   ∃ cells, read_columns t !! "epoch" = Some (MaskedColumn cells) ∧
            None ∈ cells).
Proof.
  intros Herr.
  assert (∀ name, name ∈ error_columns →
            is_Some (columns (as_table t) !! name)) as Herr'.
  { intros name Hname. by apply as_table_is_Some, Herr. }
  rewrite read_formatted_file_from_spec.
  destruct (read_columns t !! "epoch") as [c|] eqn:Hep.
  - destruct (existsb (plain t) primary_columns) eqn:Hplain.
    + split; [| eauto]. intros _. right. left. by apply existsb_true_iff.
    + pose proof (proj1 (existsb_false_iff _ _) Hplain) as Hmasked.
      rewrite (fails_iff_epoch_unusable (as_table t) Herr'). split.
      * intros [Hnone%as_table_None | (col & Hcol & Hin)]; [congruence |].
        right. right. exists col. split; [| done]. rewrite <- Hep.
        by apply as_table_masked; [apply Hmasked, epoch_is_primary |].
      * intros [[=] | [(name & Hname & Hp) | (cells & [= ->] & Hin)]].
        -- rewrite (Hmasked name Hname) in Hp. discriminate Hp.
        -- right. exists cells. split; [| done].
           apply as_table_masked; [apply Hmasked, epoch_is_primary | done].
  - split; [by left | eauto].
Qed.

Lemma reader_table_fails_iff_witness :
  (∃ e, read_formatted_file_from mixed_read_table = inl e) ↔
  (read_columns mixed_read_table !! "epoch" = None ∨
   (∃ name, name ∈ primary_columns ∧ plain mixed_read_table name = true) ∨
   ∃ cells, read_columns mixed_read_table !! "epoch" =
              Some (MaskedColumn cells) ∧ None ∈ cells).
Proof.
  apply (reader_table_fails_iff mixed_read_table).
  intros name Hname. unfold error_columns in Hname.
  repeat (apply elem_of_cons in Hname as [-> | Hname];
          [eexists; vm_compute; reflexivity |]).
  by apply elem_of_nil in Hname.
Defined.

(** On a table of the reader whose quantity columns are masked and whose
    [epoch] column has no blank cell, the run is decided by the error
    columns its rows read: it ends with the [KeyError] of the first one
    the header lacks, taking the rows in order and within a row the order
    [raoff_err], [decoff_err], [sep_err], [pa_err], [rv_err]; if none is
    missing it returns every row's fan-out. *)
Theorem reader_table_run (t : ReadTable) (cells : list cell) :
  read_columns t !! "epoch" = Some (MaskedColumn cells) →
  Forall is_Some cells →
  (∀ name, name ∈ primary_columns → plain t name = false) →
  read_formatted_file_from t =
  match first_key_error (as_table t) with
  | Some k => inl (KeyError k)
  | None => inr (concat (fan_out (as_table t) <$> seq 0 (read_len t)))
  end.
Proof.
  intros Hep Hall Hmasked.
  rewrite read_formatted_file_from_spec, Hep.
  rewrite (proj2 (existsb_false_iff _ _) Hmasked).
  apply run_with_complete_epoch.
  apply masked_epoch_complete; [apply Hmasked, epoch_is_primary | eauto].
Qed.

Lemma reader_table_run_witness :
  read_formatted_file_from bare_rv_read_table =
  match first_key_error (as_table bare_rv_read_table) with
  | Some k => inl (KeyError k)
  | None =>
      inr (concat (fan_out (as_table bare_rv_read_table) <$>
                     seq 0 (read_len bare_rv_read_table)))
  end.
Proof.
  apply (reader_table_run bare_rv_read_table
           [Some 51544.5; Some 51545.5]%float).
  - vm_compute. reflexivity.
  - repeat (apply Forall_cons; split; [by eexists |]). apply Forall_nil. exact I.
  - intros name Hname. unfold primary_columns in Hname.
    repeat (apply elem_of_cons in Hname as [-> | Hname];
            [vm_compute; reflexivity |]).
    by apply elem_of_nil in Hname.
Defined.

(** On a table of the reader whose quantity columns are masked and whose
    [epoch] column has no blank cell, the run returns the empty table
    exactly when no input row satisfies any of the three conditions; then
    no error column is looked up, so none is missed.  A masked table
    without rows and one with [epoch] alone are such tables. *)
Theorem reader_table_empty_output_iff (t : ReadTable) (cells : list cell) :
  read_columns t !! "epoch" = Some (MaskedColumn cells) →
  Forall is_Some cells →
  (∀ name, name ∈ primary_columns → plain t name = false) →
  read_formatted_file_from t = inr [] ↔
  ∀ i, i < read_len t → num_types (as_table t) i = 0.
Proof.
  intros Hep Hall Hmasked.
  rewrite read_formatted_file_from_inr.
  rewrite (empty_output_iff (as_table t)).
  - split; [by intros [_ ?] | by split].
  - apply masked_epoch_complete; [apply Hmasked, epoch_is_primary | eauto].
Qed.

Lemma reader_table_empty_output_iff_witness :
  read_formatted_file_from epoch_only_read_table = inr [] ↔
  ∀ i, i < read_len epoch_only_read_table →
       num_types (as_table epoch_only_read_table) i = 0.
Proof.
  apply (reader_table_empty_output_iff epoch_only_read_table
           [Some 51544.5; Some 2451545.0]%float).
  - vm_compute. reflexivity.
  - repeat (apply Forall_cons; split; [by eexists |]). apply Forall_nil. exact I.
  - intros name Hname. unfold primary_columns in Hname.
    repeat (apply elem_of_cons in Hname as [-> | Hname];
            [vm_compute; reflexivity |]).
    by apply elem_of_nil in Hname.
Defined.

(** A plain column among the quantity columns ends the run before any row
    is looked at: when the header has [epoch], the result is the
    [AttributeError] of [mask], whatever the epochs and the error columns
    are.  A file without a blank cell, read as plain columns, is such a
    table. *)
Theorem plain_column_raises (t : ReadTable) (name : string) :
  is_Some (read_columns t !! "epoch") →
  name ∈ primary_columns → plain t name = true →
  read_formatted_file_from t = inl (AttributeError "mask").
Proof.
  intros [c Hep] Hname Hplain. rewrite read_formatted_file_from_spec, Hep.
  by rewrite (proj2 (existsb_true_iff (plain t) primary_columns))
    by eauto.
Qed.

Lemma plain_column_raises_witness :
  read_formatted_file_from blank_epoch_read_table =
  inl (AttributeError "mask").
Proof.
  apply (plain_column_raises blank_epoch_read_table "rv").
  - eexists. vm_compute. reflexivity.
  - unfold primary_columns. repeat constructor.
  - vm_compute. reflexivity.
Defined.
